(** * Personal Library Manager: the catalogue operations of [main.py]

    The development embeds the six functions of [src/main.py]
    ([load_library], [save_library], [add_book], [remove_book],
    [search_books], [display_statistics]) and proves the properties the
    specification states about them.

    Conventions of the embedding:
    - a Python [str] is the list of its code points ([pystr]);
    - a book, a [dict] with the five fixed keys, is a record [Book.t];
    - a Python list of books is a mutable object: it lives in the [heap] of
      the [world] and functions receive its address, as the source receives
      a reference;
    - the Streamlit calls [st.success], [st.warning], [st.error] append an
      [alert] to the [ui] log of the world;
    - the file [library.json] is the [data_file] of the world, [None] when
      it does not exist, otherwise its text as [open] in text mode gives
      and takes it; a file whose bytes are no text in the encoding of the
      locale has no place in the world;
    - a call that an exception can leave returns an [outcome]. *)

From Stdlib Require Import String Ascii ZArith QArith Qround Qabs Qpower.
From Stdlib Require Import DecimalFacts DecimalPos DecimalZ List Bool Lia Lqa.
From Stdlib Require PrimFloat FloatOps SpecFloat Uint63.
Import ListNotations.

Local Open Scope Z_scope.

(** ** Python strings *)

Definition pystr := list Z.

Definition pystr_eq_dec : forall a b : pystr, {a = b} + {a <> b} :=
  list_eq_dec Z.eq_dec.

Definition pystr_eqb (a b : pystr) : bool :=
  if pystr_eq_dec a b then true else false.

(** A string literal of the source, as code points. *)
Definition lit (s : string) : pystr :=
  List.map (fun a => Z.of_nat (nat_of_ascii a)) (list_ascii_of_string s).

(** [p] is a prefix of [s]. *)
Fixpoint startswith (p s : pystr) : bool :=
  match p, s with
  | [], _ => true
  | _ :: _, [] => false
  | a :: p', b :: s' => (a =? b) && startswith p' s'
  end.

(** Python's [sub in s] on strings: [sub] occurs in [s] at some offset. *)
Fixpoint contains (sub s : pystr) : bool :=
  startswith sub s ||
  match s with
  | [] => false
  | _ :: s' => contains sub s'
  end.

(** [str.lower] restricted to ASCII: the letters A-Z move to a-z, every
    other code point stays. On ASCII strings this is [str.lower]. *)
Definition lower_ascii (s : pystr) : pystr :=
  List.map (fun c => if (65 <=? c) && (c <=? 90) then c + 32 else c) s.

(** ** Books, alerts and the world *)

(** A book is a [dict] with exactly these five keys. *)
Module Book.
Record t := mk {
  title : pystr;
  author : pystr;
  publication_year : Z;
  genre : pystr;
  read : bool
}.

Definition eq_dec : forall a b : t, {a = b} + {a <> b}.
Proof.
  decide equality; auto using pystr_eq_dec, Z.eq_dec, Bool.bool_dec.
Defined.
End Book.

Inductive alert :=
| Success (text : pystr)
| Warning (text : pystr)
| Error (text : pystr).

Definition loc := nat.

Record world := mkWorld {
  heap : loc -> list Book.t;
  ui : list alert;
  data_file : option pystr
}.

(** ** The state monad the functions run in *)

Definition M (A : Type) := world -> A * world.

Definition ret {A} (a : A) : M A := fun w => (a, w).

Definition bind {A B} (m : M A) (k : A -> M B) : M B :=
  fun w => let (a, w') := m w in k a w'.

Notation "x <- m ;; k" := (bind m (fun x => k))
  (at level 61, m at next level, right associativity).
Notation "m ;; k" := (bind m (fun _ => k))
  (at level 61, right associativity).

(** Contents of the list object at [l]. *)
Definition list_get (l : loc) : M (list Book.t) :=
  fun w => (heap w l, w).

(** [l[:] = v]: the list object at [l] gets the contents [v]. *)
Definition list_set (l : loc) (v : list Book.t) : M unit :=
  fun w => (tt, mkWorld (fun l' => if Nat.eqb l' l then v else heap w l')
                        (ui w) (data_file w)).

Definition st_alert (a : alert) : M unit :=
  fun w => (tt, mkWorld (heap w) (ui w ++ [a]) (data_file w)).

Definition st_success (text : pystr) : M unit := st_alert (Success text).
Definition st_warning (text : pystr) : M unit := st_alert (Warning text).
Definition st_error (text : pystr) : M unit := st_alert (Error text).

Definition exec {A} (m : M A) (w : world) : world := snd (m w).
Definition eval {A} (m : M A) (w : world) : A := fst (m w).

(** ** The catalogue operations *)

Section Catalogue.

(** [str.lower] is the interpreter's Unicode case mapping; its tables are
    not part of the program, so the operations take it as a parameter.
    [lower_ascii] is its instance on ASCII text. *)
Variable lower : pystr -> pystr.

Definition add_book (library : loc) (title author : pystr) (pub_year : Z)
    (genre : pystr) (read_status : bool) : M unit :=
  let book := {| Book.title := title; Book.author := author;
                 Book.publication_year := pub_year; Book.genre := genre;
                 Book.read := read_status |} in
  books <- list_get library ;;
  list_set library (books ++ [book]) ;;
  st_success (lit "Added '" ++ title ++ lit "' to the library.").

Definition remove_book (library : loc) (title : pystr) : M unit :=
  books <- list_get library ;;
  let original_count := length books in
  list_set library
    (filter (fun book =>
               negb (pystr_eqb (lower (Book.title book)) (lower title)))
            books) ;;
  books' <- list_get library ;;
  if (length books' <? original_count)%nat
  then st_success (lit "Removed '" ++ title ++ lit "' from the library.")
  else st_warning (lit "No book found with the title '" ++ title ++ lit "'.").

Definition search_books (library : loc) (keyword : pystr) : M (list Book.t) :=
  let keyword := lower keyword in
  books <- list_get library ;;
  let results :=
    filter (fun book =>
              contains keyword (lower (Book.title book)) ||
              contains keyword (lower (Book.author book)))
           books in
  ret results.

End Catalogue.

(** ** Python numbers

    [int / int] and [float * int] produce binary64 floats. A finite float
    is represented by its exact rational value; [RN] rounds a rational to
    the nearest binary64 value, ties to even (precision 53, least exponent
    -1074). Overflow to infinity is absent from the model: every value the
    program computes is at most 100 in magnitude. *)

Definition float64 := Q.

(** Nearest integer to [t], ties to the even one. *)
Definition rne (t : Q) : Z :=
  let q := Qfloor t in
  match (t - inject_Z q) ?= (1 # 2) with
  | Lt => q
  | Gt => (q + 1)%Z
  | Eq => if Z.even q then q else (q + 1)%Z
  end%Q.

(** [floor (log2 x)] for a positive rational. *)
Definition Qlog2 (x : Q) : Z :=
  let l0 := (Z.log2 (Qnum x) - Z.log2 (Zpos (Qden x)))%Z in
  if Qle_bool (2 ^ l0) x then l0 else (l0 - 1)%Z.

(** Exponent of the unit in the last place of the binary64 format at [x]. *)
Definition ulp_exp (x : Q) : Z := Z.max (Qlog2 x - 52) (-1074).

Definition RN_pos (x : Q) : float64 :=
  let e := ulp_exp x in
  Qred (inject_Z (rne (x / 2 ^ e)) * 2 ^ e)%Q.

Definition RN (x : Q) : float64 :=
  match Qnum x with
  | Z0 => 0%Q
  | Zpos _ => RN_pos x
  | Zneg _ => Qred (- RN_pos (- x))%Q
  end.

(** [a / b] on Python ints with [b <> 0]: the correctly rounded quotient. *)
Definition int_truediv (a b : Z) : float64 := RN (inject_Z a / inject_Z b)%Q.

(** [x * y] on floats. *)
Definition float_mul (x y : float64) : float64 := RN (x * y)%Q.

(** [float(n)] for an int that is exactly representable. *)
Definition float_of_int (n : Z) : float64 := inject_Z n.

(** The same computation on the primitive binary64 floats of the prover,
    to compare [RN] with: [hardware_percent r n] is [(r / n) * 100] for
    ints below [2^53], which convert exactly. *)
Definition hardware_float (n : Z) : PrimFloat.float :=
  PrimFloat.of_uint63 (Uint63.of_Z n).

Definition hardware_percent (r n : Z) : PrimFloat.float :=
  PrimFloat.mul (PrimFloat.div (hardware_float r) (hardware_float n))
                (hardware_float 100).

(** The rational value of a finite primitive float. *)
Definition Q_of_float (x : PrimFloat.float) : option Q :=
  match FloatOps.Prim2SF x with
  | SpecFloat.S754_zero _ => Some 0%Q
  | SpecFloat.S754_finite s m e =>
      Some (Qred ((if s then -1 else 1) * inject_Z (Zpos m) * 2 ^ e))%Q
  | _ => None
  end.

(** [RN] and the primitive floats give the same percentage for [n] records
    and every count [r < k] of read ones. *)
Fixpoint agree_row (n : Z) (k : nat) : bool :=
  match k with
  | O => true
  | S k' =>
    let r := Z.of_nat k' in
    match Q_of_float (hardware_percent r n) with
    | Some q =>
        Qeq_bool q (float_mul (int_truediv r n) (float_of_int 100))
    | None => false
    end && agree_row n k'
  end.

(** The same for every collection of at most [k] records. *)
Fixpoint agree_upto (k : nat) : bool :=
  match k with
  | O => true
  | S k' => agree_row (Z.of_nat k) (S k) && agree_upto k'
  end.

Inductive pynum :=
| PyInt (n : Z)
| PyFloat (x : float64).

(** [sum(1 for book in library if book["read"])]. *)
Definition count_read (books : list Book.t) : Z :=
  fold_right Z.add 0 (List.map (fun _ => 1) (filter Book.read books)).

Definition display_statistics (library : loc) : M (Z * pynum) :=
  books <- list_get library ;;
  let total_books := Z.of_nat (length books) in
  if total_books =? 0 then ret (total_books, PyInt 0)
  else
    let read_books := count_read books in
    let percent_read :=
      float_mul (int_truediv read_books total_books) (float_of_int 100) in
    ret (total_books, PyFloat percent_read).


(** ** Python values exchanged with the [json] module

    [json.load] can return any JSON value, so its result is a [pyval]. A
    float is kept as the numeral that denotes it; a [dict] is the list of
    its items in insertion order, keys distinct. *)

#[local] Set Warnings "-register-all".

Inductive pyval :=
| PNone
| PBool (b : bool)
| PInt (n : Z)
| PFloat (numeral : pystr)
| PStr (s : pystr)
| PList (items : list pyval)
| PDict (items : list (pystr * pyval)).

(** The [dict] that [add_book] builds, as a Python value. *)
Definition book_dict (book : Book.t) : pyval :=
  PDict [ (lit "title", PStr (Book.title book));
          (lit "author", PStr (Book.author book));
          (lit "publication_year", PInt (Book.publication_year book));
          (lit "genre", PStr (Book.genre book));
          (lit "read", PBool (Book.read book)) ].

Definition library_value (books : list Book.t) : pyval :=
  PList (List.map book_dict books).

(** ** The encoder: [json.dump(library, f, indent=4)]

    After [json.encoder]: [py_encode_basestring_ascii] for strings (the
    default [ensure_ascii=True]), [int.__repr__] for ints, with the
    interpreter's limit on the length of a numeral, and [_make_iterencode]
    for the chunks and their layout, with item separator [","] and key
    separator [": "]. *)

(** One lowercase hexadecimal digit. *)
Definition hexdigit (d : Z) : Z := if d <? 10 then 48 + d else 87 + d.

(** ['{0:04x}'.format(n)] for [0 <= n < 0x10000]. *)
Definition hex4 (n : Z) : pystr :=
  [ hexdigit (Z.land (Z.shiftr n 12) 15); hexdigit (Z.land (Z.shiftr n 8) 15);
    hexdigit (Z.land (Z.shiftr n 4) 15); hexdigit (Z.land n 15) ].

Definition u_escape (n : Z) : pystr := 92 :: 117 :: hex4 n.

(** The replacement of one character: [ESCAPE_DCT], else the character
    itself when it is printable ASCII, else a [\uXXXX] escape, a surrogate
    pair of them above the basic plane. *)
Definition escape_char (c : Z) : pystr :=
  if c =? 92 then [92; 92]
  else if c =? 34 then [92; 34]
  else if c =? 8 then [92; 98]
  else if c =? 12 then [92; 102]
  else if c =? 10 then [92; 110]
  else if c =? 13 then [92; 114]
  else if c =? 9 then [92; 116]
  else if (32 <=? c) && (c <=? 126) then [c]
  else if c <? 65536 then u_escape c
  else
    let n := c - 65536 in
    let s1 := Z.lor 55296 (Z.land (Z.shiftr n 10) 1023) in
    let s2 := Z.lor 56320 (Z.land n 1023) in
    u_escape s1 ++ u_escape s2.

Definition py_encode_basestring_ascii (s : pystr) : pystr :=
  34 :: flat_map escape_char s ++ [34].

Fixpoint digits (u : Decimal.uint) : pystr :=
  match u with
  | Decimal.Nil => []
  | Decimal.D0 u => 48 :: digits u
  | Decimal.D1 u => 49 :: digits u
  | Decimal.D2 u => 50 :: digits u
  | Decimal.D3 u => 51 :: digits u
  | Decimal.D4 u => 52 :: digits u
  | Decimal.D5 u => 53 :: digits u
  | Decimal.D6 u => 54 :: digits u
  | Decimal.D7 u => 55 :: digits u
  | Decimal.D8 u => 56 :: digits u
  | Decimal.D9 u => 57 :: digits u
  end.

(** The decimal numeral of an int. *)
Definition decimal (n : Z) : pystr :=
  match Z.to_int n with
  | Decimal.Pos u => digits u
  | Decimal.Neg u => 45 :: digits u
  end.

(** The number of digits of that numeral, the sign not counted. *)
Definition int_digits (n : Z) : Z :=
  match Z.to_int n with
  | Decimal.Pos u | Decimal.Neg u => Z.of_nat (length (digits u))
  end.

(** [sys.int_info.default_max_str_digits]: the interpreter converts no int
    to a numeral of more digits, and no longer numeral to an int. *)
Definition max_str_digits : Z := 4300.

(** [int.__repr__]: the numeral, or [None] for the [ValueError] an int of
    more than [max_str_digits] digits raises. *)
Definition intstr (n : Z) : option pystr :=
  if max_str_digits <? int_digits n then None else Some (decimal n).

Section Encoder.

(** [float.__repr__] of the float a numeral denotes: the interpreter's
    shortest-digits printing, a parameter of the model. *)
Variable floatstr : pystr -> pystr.

(** Spaces per level, the [indent] argument. *)
Variable indent : nat.

(** ['\n' + _indent * _current_indent_level]. *)
Definition newline_indent (level : nat) : pystr :=
  10 :: repeat 32 (indent * level).

(** The chunk [_iterencode] yields for a value that is no list and no
    dict: [Some None] where [int.__repr__] raises, [None] on a list or a
    dict. *)
Definition atom (o : pyval) : option (option pystr) :=
  match o with
  | PNone => Some (Some (lit "null"))
  | PBool true => Some (Some (lit "true"))
  | PBool false => Some (Some (lit "false"))
  | PInt n => Some (intstr n)
  | PFloat x => Some (Some (floatstr x))
  | PStr s => Some (Some (py_encode_basestring_ascii s))
  | PList _ | PDict _ => None
  end.

(** The chunks the generator [_iterencode(o, level)] yields, in order;
    [None] is the point where [int.__repr__] raises [ValueError], which
    ends the generator. [_iterencode_list] yields the pending [buf] (the
    opening bracket or the separator) together with an element that is no
    container, and alone before a container; [_iterencode_dict] yields the
    separator, the key, the key separator and the value one by one. *)
Fixpoint iterencode (o : pyval) (level : nat) {struct o}
  : list (option pystr) :=
  match o with
  | PList [] => [Some (lit "[]")]
  | PList (value :: lst) =>
      match atom value with
      | Some a => [option_map (app ([91] ++ newline_indent (S level))) a]
      | None =>
          Some ([91] ++ newline_indent (S level)) :: iterencode value (S level)
      end ++
      (fix rest (l : list pyval) : list (option pystr) :=
         match l with
         | [] => []
         | value :: l' =>
             match atom value with
             | Some a =>
                 [option_map (app ([44] ++ newline_indent (S level))) a]
             | None =>
                 Some ([44] ++ newline_indent (S level)) ::
                 iterencode value (S level)
             end ++ rest l'
         end) lst ++
      [Some (newline_indent level); Some [93]]
  | PDict [] => [Some (lit "{}")]
  | PDict ((key, value) :: dct) =>
      [Some [123]; Some (newline_indent (S level));
       Some (py_encode_basestring_ascii key); Some (lit ": ")] ++
      match atom value with
      | Some a => [a]
      | None => iterencode value (S level)
      end ++
      (fix rest (l : list (pystr * pyval)) : list (option pystr) :=
         match l with
         | [] => []
         | (key, value) :: l' =>
             [Some ([44] ++ newline_indent (S level));
              Some (py_encode_basestring_ascii key); Some (lit ": ")] ++
             match atom value with
             | Some a => [a]
             | None => iterencode value (S level)
             end ++ rest l'
         end) dct ++
      [Some (newline_indent level); Some [125]]
  | _ =>
      match atom o with
      | Some a => [a]
      | None => []
      end
  end.

(** What [for chunk in iterable: fp.write(chunk)] has written when the loop
    ends: the chunks before the first exception, all of them when there is
    none. *)
Fixpoint written (chunks : list (option pystr)) : pystr :=
  match chunks with
  | Some text :: chunks' => text ++ written chunks'
  | None :: _ | [] => []
  end.

(** The generator raises. *)
Definition raises (chunks : list (option pystr)) : bool :=
  existsb (fun c => match c with None => true | Some _ => false end) chunks.

(** The chunks make [text] when the generator does not raise, and the
    beginning of it when it does. *)
Definition yields (chunks : list (option pystr)) (text : pystr) : Prop :=
  (raises chunks = false -> written chunks = text) /\
  exists rest, text = written chunks ++ rest.

(** The text [json.dump(obj, f, indent=indent)] writes to [f]: all of it,
    or the part before the exception. *)
Definition json_dump (obj : pyval) : pystr := written (iterencode obj 0).

(** [json.dump(obj, f, indent=indent)] raises [ValueError]. *)
Definition json_dump_raises (obj : pyval) : bool := raises (iterencode obj 0).

(** The chunks of a value joined, every int as its numeral: the text
    [json.dump] writes when it does not raise ([written_iterencode]). *)
Fixpoint json_text (o : pyval) (level : nat) {struct o} : pystr :=
  match o with
  | PNone => lit "null"
  | PBool true => lit "true"
  | PBool false => lit "false"
  | PInt n => decimal n
  | PFloat x => floatstr x
  | PStr s => py_encode_basestring_ascii s
  | PList [] => lit "[]"
  | PList (value :: lst) =>
      [91] ++ newline_indent (S level) ++ json_text value (S level) ++
      (fix rest (l : list pyval) : pystr :=
         match l with
         | [] => []
         | value :: l' =>
             [44] ++ newline_indent (S level) ++
             json_text value (S level) ++ rest l'
         end) lst ++
      newline_indent level ++ [93]
  | PDict [] => lit "{}"
  | PDict ((key, value) :: dct) =>
      [123] ++ newline_indent (S level) ++
      py_encode_basestring_ascii key ++ lit ": " ++
      json_text value (S level) ++
      (fix rest (l : list (pystr * pyval)) : pystr :=
         match l with
         | [] => []
         | (key, value) :: l' =>
             [44] ++ newline_indent (S level) ++
             py_encode_basestring_ascii key ++ lit ": " ++
             json_text value (S level) ++ rest l'
         end) dct ++
      newline_indent level ++ [125]
  end.

(** The elements of a list after the first, as [json_text] lays them out:
    the inner loop of the [PList] case under a name. *)
Fixpoint list_tail (l : list pyval) (level : nat) : pystr :=
  match l with
  | [] => []
  | value :: l' =>
      [44] ++ newline_indent level ++ json_text value level ++ list_tail l' level
  end.

End Encoder.

(** ** The decoder: [json.load(f)]

    After [json.decoder] and [json.scanner]: [scanstring] (strict),
    [JSONObject], [JSONArray], the number pattern with [int] and its limit
    on the length of a numeral, and [decode], which rejects a leading byte
    order mark and trailing data. The nesting of arrays and objects is not
    bounded here: the interpreter bounds it by the recursion depth left at
    the call, some hundreds of levels, and a collection of books nests two
    deep. *)

(** The exceptions of the model: the decoder's own, and the [ValueError] of
    a conversion between an int and a numeral of more than
    [max_str_digits] digits. *)
Inductive exception :=
| JSONDecodeError
| ValueError.

Inductive result (A : Type) :=
| Ok (a : A)
| Raise (e : exception)
| OutOfFuel.

Arguments Ok {A} a.
Arguments Raise {A} e.
Arguments OutOfFuel {A}.

Definition is_ws (c : Z) : bool :=
  (c =? 32) || (c =? 9) || (c =? 10) || (c =? 13).

(** [WHITESPACE.match(s, end).end()]. *)
Fixpoint skip_ws (s : pystr) : pystr :=
  match s with
  | c :: s' => if is_ws c then skip_ws s' else s
  | [] => []
  end.

Definition hexval (c : Z) : option Z :=
  if (48 <=? c) && (c <=? 57) then Some (c - 48)
  else if (97 <=? c) && (c <=? 102) then Some (c - 87)
  else if (65 <=? c) && (c <=? 70) then Some (c - 55)
  else None.

(** [_decode_uXXXX]: four hexadecimal digits. *)
Definition decode_uXXXX (h1 h2 h3 h4 : Z) : option Z :=
  match hexval h1, hexval h2, hexval h3, hexval h4 with
  | Some a, Some b, Some c, Some d => Some (a * 4096 + b * 256 + c * 16 + d)
  | _, _, _, _ => None
  end.

(** The [BACKSLASH] table. *)
Definition backslash (esc : Z) : option Z :=
  if esc =? 34 then Some 34
  else if esc =? 92 then Some 92
  else if esc =? 47 then Some 47
  else if esc =? 98 then Some 8
  else if esc =? 102 then Some 12
  else if esc =? 110 then Some 10
  else if esc =? 114 then Some 13
  else if esc =? 116 then Some 9
  else None.

Definition is_high_surrogate (c : Z) : bool := (55296 <=? c) && (c <=? 56319).
Definition is_low_surrogate (c : Z) : bool := (56320 <=? c) && (c <=? 57343).

Definition join_surrogates (uni uni2 : Z) : Z :=
  65536 + Z.lor (Z.shiftl (uni - 55296) 10) (uni2 - 56320).

Definition prepend (c : Z) (r : result (pystr * pystr)) : result (pystr * pystr) :=
  match r with
  | Ok (chunks, rest) => Ok (c :: chunks, rest)
  | Raise e => Raise e
  | OutOfFuel => OutOfFuel
  end.

(** [scanstring(s, end, strict=True)], entered after the opening quote:
    the decoded string and the text after the closing quote. *)
Fixpoint scanstring (s : pystr) : result (pystr * pystr) :=
  match s with
  | [] => Raise JSONDecodeError
  | c :: s1 =>
    if c =? 34 then Ok ([], s1)
    else if c =? 92 then
      match s1 with
      | [] => Raise JSONDecodeError
      | esc :: s2 =>
        if esc =? 117 then
          match s2 with
          | h1 :: h2 :: h3 :: h4 :: s3 =>
            match decode_uXXXX h1 h2 h3 h4 with
            | None => Raise JSONDecodeError
            | Some uni =>
              if is_high_surrogate uni then
                match s3 with
                | b :: u :: s4 =>
                  if (b =? 92) && (u =? 117) then
                    match s4 with
                    | l1 :: l2 :: l3 :: l4 :: s5 =>
                      match decode_uXXXX l1 l2 l3 l4 with
                      | None => Raise JSONDecodeError
                      | Some uni2 =>
                        if is_low_surrogate uni2
                        then prepend (join_surrogates uni uni2) (scanstring s5)
                        else prepend uni (scanstring s3)
                      end
                    | _ => Raise JSONDecodeError
                    end
                  else prepend uni (scanstring s3)
                | _ => prepend uni (scanstring s3)
                end
              else prepend uni (scanstring s3)
            end
          | _ => Raise JSONDecodeError
          end
        else
          match backslash esc with
          | Some char => prepend char (scanstring s2)
          | None => Raise JSONDecodeError
          end
      end
    else if c <? 32 then Raise JSONDecodeError
    else prepend c (scanstring s1)
  end.

Definition is_digit (c : Z) : bool := (48 <=? c) && (c <=? 57).

(** The longest run of ASCII digits at the head of [s], and what follows. *)
Fixpoint span_digits (s : pystr) : pystr * pystr :=
  match s with
  | c :: s' =>
    if is_digit c then let (d, r) := span_digits s' in (c :: d, r)
    else ([], s)
  | [] => ([], [])
  end.

(** The integer part of the number pattern: an optional minus sign, then
    a single 0 or a digit 1-9 followed by digits. *)
Definition match_integer (s : pystr) : option (pystr * pystr) :=
  let (sign, s1) :=
    match s with
    | c :: s' => if c =? 45 then ([45], s') else ([], s)
    | [] => ([], s)
    end in
  match s1 with
  | c :: s2 =>
    if c =? 48 then Some (sign ++ [48], s2)
    else if is_digit c then
      let (d, r) := span_digits s2 in Some (sign ++ c :: d, r)
    else None
  | [] => None
  end.

(** The fraction group of the number pattern, a point and one digit or
    more, when it takes part in the match. *)
Definition match_frac (s : pystr) : option (pystr * pystr) :=
  match s with
  | c :: s1 =>
    if c =? 46 then
      match span_digits s1 with
      | ([], _) => None
      | (d, r) => Some (46 :: d, r)
      end
    else None
  | [] => None
  end.

(** The exponent group of the number pattern, e or E, an optional sign and
    one digit or more, when it takes part in the match. *)
Definition match_exp (s : pystr) : option (pystr * pystr) :=
  match s with
  | c :: s1 =>
    if (c =? 101) || (c =? 69) then
      let (sign, s2) :=
        match s1 with
        | c' :: s' => if (c' =? 45) || (c' =? 43) then ([c'], s') else ([], s1)
        | [] => ([], s1)
        end in
      match span_digits s2 with
      | ([], _) => None
      | (d, r) => Some (c :: sign ++ d, r)
      end
    else None
  | [] => None
  end.

Fixpoint uint_of_digits (d : pystr) : Decimal.uint :=
  match d with
  | [] => Decimal.Nil
  | c :: d' =>
    let u := uint_of_digits d' in
    if c =? 48 then Decimal.D0 u else if c =? 49 then Decimal.D1 u
    else if c =? 50 then Decimal.D2 u else if c =? 51 then Decimal.D3 u
    else if c =? 52 then Decimal.D4 u else if c =? 53 then Decimal.D5 u
    else if c =? 54 then Decimal.D6 u else if c =? 55 then Decimal.D7 u
    else if c =? 56 then Decimal.D8 u else Decimal.D9 u
  end.

(** The int a matched integer numeral denotes. *)
Definition int_of_numeral (integer : pystr) : Z :=
  match integer with
  | c :: d =>
    if c =? 45 then Z.of_int (Decimal.Neg (uint_of_digits d))
    else Z.of_int (Decimal.Pos (uint_of_digits integer))
  | [] => 0
  end.

(** The digits of a matched integer numeral, the sign taken off. *)
Definition numeral_digits (integer : pystr) : pystr :=
  match integer with
  | c :: d => if c =? 45 then d else integer
  | [] => []
  end.

(** [int(integer)] on a matched integer numeral: [None] for the
    [ValueError] a numeral of more than [max_str_digits] digits raises. *)
Definition parse_int (integer : pystr) : option Z :=
  if max_str_digits <? Z.of_nat (length (numeral_digits integer)) then None
  else Some (int_of_numeral integer).

(** [match_number] and the choice between [parse_int] and [parse_float]:
    no match, or the outcome of the conversion. The float of a numeral is
    the numeral itself here, and [float] has no limit on its length. *)
Definition scan_number (s : pystr) : option (result (pyval * pystr)) :=
  match match_integer s with
  | None => None
  | Some (integer, s1) =>
    let (frac, s2) :=
      match match_frac s1 with Some (f, r) => (f, r) | None => ([], s1) end in
    let (exp, s3) :=
      match match_exp s2 with Some (e, r) => (e, r) | None => ([], s2) end in
    match frac ++ exp with
    | [] =>
      match parse_int integer with
      | Some n => Some (Ok (PInt n, s3))
      | None => Some (Raise ValueError)
      end
    | _ => Some (Ok (PFloat (integer ++ frac ++ exp), s3))
    end
  end.

Fixpoint dict_get (d : list (pystr * pyval)) (key : pystr) : option pyval :=
  match d with
  | [] => None
  | (k, v) :: d' => if pystr_eqb k key then Some v else dict_get d' key
  end.

(** [d[key] = value]: a present key keeps its place, a new one goes last. *)
Fixpoint dict_set (d : list (pystr * pyval)) (key : pystr) (value : pyval)
  : list (pystr * pyval) :=
  match d with
  | [] => [(key, value)]
  | (k, v) :: d' =>
    if pystr_eqb k key then (k, value) :: d'
    else (k, v) :: dict_set d' key value
  end.

(** [dict(pairs)]. *)
Definition dict_of_pairs (pairs : list (pystr * pyval)) : list (pystr * pyval) :=
  fold_left (fun d kv => dict_set d (fst kv) (snd kv)) pairs [].

(** [scan_once], [JSONArray] and [JSONObject]. [array_items] is the loop of
    [JSONArray], entered at a value; [object_items] the loop of
    [JSONObject], entered after the opening quote of a key. Each call
    spends one unit of [fuel]. *)
Fixpoint scan_once (fuel : nat) (s : pystr) {struct fuel}
  : result (pyval * pystr) :=
  match fuel with
  | O => OutOfFuel
  | S fuel =>
    match s with
    | [] => Raise JSONDecodeError
    | nextchar :: s1 =>
      if nextchar =? 34 then
        match scanstring s1 with
        | Ok (str, rest) => Ok (PStr str, rest)
        | Raise e => Raise e
        | OutOfFuel => OutOfFuel
        end
      else if nextchar =? 123 then
        match skip_ws s1 with
        | c :: s2 =>
          if c =? 125 then Ok (PDict [], s2)
          else if c =? 34 then
            match object_items fuel s2 with
            | Ok (pairs, rest) => Ok (PDict (dict_of_pairs pairs), rest)
            | Raise e => Raise e
            | OutOfFuel => OutOfFuel
            end
          else Raise JSONDecodeError
        | [] => Raise JSONDecodeError
        end
      else if nextchar =? 91 then
        match skip_ws s1 with
        | c :: s2 =>
          if c =? 93 then Ok (PList [], s2)
          else
            match array_items fuel (c :: s2) with
            | Ok (values, rest) => Ok (PList values, rest)
            | Raise e => Raise e
            | OutOfFuel => OutOfFuel
            end
        | [] => Raise JSONDecodeError
        end
      else if startswith (lit "null") s then Ok (PNone, skipn 4 s)
      else if startswith (lit "true") s then Ok (PBool true, skipn 4 s)
      else if startswith (lit "false") s then Ok (PBool false, skipn 5 s)
      else
        match scan_number s with
        | Some res => res
        | None =>
          if startswith (lit "NaN") s then Ok (PFloat (lit "NaN"), skipn 3 s)
          else if startswith (lit "Infinity") s
          then Ok (PFloat (lit "Infinity"), skipn 8 s)
          else if startswith (lit "-Infinity") s
          then Ok (PFloat (lit "-Infinity"), skipn 9 s)
          else Raise JSONDecodeError
        end
    end
  end

with array_items (fuel : nat) (s : pystr) {struct fuel}
  : result (list pyval * pystr) :=
  match fuel with
  | O => OutOfFuel
  | S fuel =>
    match scan_once fuel s with
    | Ok (value, s1) =>
      match skip_ws s1 with
      | nextchar :: s2 =>
        if nextchar =? 93 then Ok ([value], s2)
        else if nextchar =? 44 then
          match array_items fuel (skip_ws s2) with
          | Ok (values, rest) => Ok (value :: values, rest)
          | Raise e => Raise e
          | OutOfFuel => OutOfFuel
          end
        else Raise JSONDecodeError
      | [] => Raise JSONDecodeError
      end
    | Raise e => Raise e
    | OutOfFuel => OutOfFuel
    end
  end

with object_items (fuel : nat) (s : pystr) {struct fuel}
  : result (list (pystr * pyval) * pystr) :=
  match fuel with
  | O => OutOfFuel
  | S fuel =>
    match scanstring s with
    | Ok (key, s1) =>
      match skip_ws s1 with
      | colon :: s2 =>
        if colon =? 58 then
          match scan_once fuel (skip_ws s2) with
          | Ok (value, s3) =>
            match skip_ws s3 with
            | nextchar :: s4 =>
              if nextchar =? 125 then Ok ([(key, value)], s4)
              else if nextchar =? 44 then
                match skip_ws s4 with
                | q :: s5 =>
                  if q =? 34 then
                    match object_items fuel s5 with
                    | Ok (pairs, rest) => Ok ((key, value) :: pairs, rest)
                    | Raise e => Raise e
                    | OutOfFuel => OutOfFuel
                    end
                  else Raise JSONDecodeError
                | [] => Raise JSONDecodeError
                end
              else Raise JSONDecodeError
            | [] => Raise JSONDecodeError
            end
          | Raise e => Raise e
          | OutOfFuel => OutOfFuel
          end
        else Raise JSONDecodeError
      | [] => Raise JSONDecodeError
      end
    | Raise e => Raise e
    | OutOfFuel => OutOfFuel
    end
  end.

(** [JSONDecoder.decode] on the text [s], behind the byte order mark check
    of [json.loads]. The fuel is enough for every text
    ([json_load_terminates]). *)
Definition json_load (s : pystr) : result pyval :=
  if startswith [65279] s then Raise JSONDecodeError
  else
    match scan_once (2 * length s + 1) (skip_ws s) with
    | Ok (obj, rest) =>
      match skip_ws rest with
      | [] => Ok obj
      | _ :: _ => Raise JSONDecodeError
      end
    | Raise e => Raise e
    | OutOfFuel => OutOfFuel
    end.

(** ** Persistence *)

Definition read_file : M (option pystr) := fun w => (data_file w, w).

Definition write_file (text : pystr) : M unit :=
  fun w => (tt, mkWorld (heap w) (ui w) (Some text)).

(** How a call ends: it returns a value, or an exception leaves it. *)
Inductive outcome (A : Type) :=
| Returned (a : A)
| Raised (e : exception).

Arguments Returned {A} a.
Arguments Raised {A} e.

(** [except json.JSONDecodeError] catches the decoder's own exception only;
    the [ValueError] of an over-long integer leaves the function. *)
Definition load_library : M (outcome pyval) :=
  f <- read_file ;;
  match f with
  | Some text =>
    match json_load text with
    | Ok library => ret (Returned library)
    | Raise JSONDecodeError | OutOfFuel =>
      st_error
        (lit "Error decoding the library file. Starting with an empty library.") ;;
      ret (Returned (PList []))
    | Raise ValueError => ret (Raised ValueError)
    end
  | None => ret (Returned (PList []))
  end.

Section Persistence.

Variable floatstr : pystr -> pystr.

(** [open(DATA_FILE, "w")] empties the file, [json.dump] writes chunk by
    chunk, and leaving the [with] block closes the file, also when
    [json.dump] raises: the chunks written until then stay. *)
Definition save_library (library : loc) : M (outcome unit) :=
  books <- list_get library ;;
  write_file (json_dump floatstr 4 (library_value books)) ;;
  if json_dump_raises floatstr 4 (library_value books)
  then ret (Raised ValueError)
  else ret (Returned tt).

End Persistence.

(** ** Vocabulary of the specification *)

(** [sub] is a substring of [s]. *)
Definition substring (sub s : pystr) : Prop :=
  exists pre post, s = pre ++ sub ++ post.

(** [r] holds exactly the elements of [l] that satisfy [P], each as often
    as in [l] and in the order of [l]. *)
Inductive selects {A} (P : A -> Prop) : list A -> list A -> Prop :=
| selects_nil : selects P [] []
| selects_keep a l r : P a -> selects P l r -> selects P (a :: l) (a :: r)
| selects_drop a l r : ~ P a -> selects P l r -> selects P (a :: l) r.

(** Code points of a [str] lie below 0x110000. *)
Definition code_points (s : pystr) : bool :=
  forallb (fun c => (0 <=? c) && (c <? 1114112)) s.

(** No high surrogate is directly followed by a low surrogate. *)
Fixpoint no_surrogate_pair (s : pystr) : bool :=
  match s with
  | c :: s' =>
    match s' with
    | c' :: _ => negb (is_high_surrogate c && is_low_surrogate c')
    | [] => true
    end && no_surrogate_pair s'
  | [] => true
  end.

Definition text_ok (s : pystr) : bool := code_points s && no_surrogate_pair s.

(** The int has a numeral [int.__repr__] and [int] convert: at most
    [max_str_digits] digits. *)
Definition int_ok (n : Z) : bool := int_digits n <=? max_str_digits.

Definition book_ok (book : Book.t) : bool :=
  text_ok (Book.title book) && text_ok (Book.author book) &&
  text_ok (Book.genre book) && int_ok (Book.publication_year book).

(** Worlds that differ at most in the list object at [l]. *)
Definition same_except (l : loc) (w w' : world) : Prop :=
  (forall l', l' <> l -> heap w' l' = heap w l') /\
  data_file w' = data_file w.

Definition removed_text (t : pystr) : pystr :=
  lit "Removed '" ++ t ++ lit "' from the library.".

Definition not_found_text (t : pystr) : pystr :=
  lit "No book found with the title '" ++ t ++ lit "'.".

Definition added_text (t : pystr) : pystr :=
  lit "Added '" ++ t ++ lit "' to the library.".

Section Vocabulary.

Variable lower : pystr -> pystr.

(** Equality of titles after [lower]: the comparison [remove_book] makes. *)
Definition same_title (a b : pystr) : Prop := lower a = lower b.

(** The keyword occurs in the title or in the author, all lowercased. *)
Definition matches (keyword : pystr) (book : Book.t) : Prop :=
  substring (lower keyword) (lower (Book.title book)) \/
  substring (lower keyword) (lower (Book.author book)).

(** The test of the comprehension in [remove_book]. *)
Definition keep (t : pystr) (book : Book.t) : bool :=
  negb (pystr_eqb (lower (Book.title book)) (lower t)).

End Vocabulary.

(** The text after a numeral does not continue it. *)
Definition number_end (rest : pystr) : bool :=
  match rest with
  | c :: _ => negb (is_digit c || (c =? 46) || (c =? 101) || (c =? 69))
  | [] => true
  end.

(** What may follow the escape of a high surrogate without being joined to
    it: anything but an escape, or the escape of a unit that is not a low
    surrogate. *)
Definition not_joined (tail : pystr) : Prop :=
  (forall s4, tail <> 92 :: 117 :: s4) \/
  (exists v t, tail = u_escape v ++ t /\ 0 <= v < 65536 /\
               is_low_surrogate v = false).

(** A key, the key separator, the encoded value and what follows, as
    [object_items] meets them after the opening quote of the key. *)
Definition item (key venc tail : pystr) : pystr :=
  flat_map escape_char key ++ 34 :: 58 :: 32 :: venc ++ tail.

(** ** Sample data for the examples of the specification *)

Definition titled (t a : string) : Book.t := Book.mk (lit t) (lit a) 0 [] false.

Definition shelf (books : list Book.t) : world :=
  mkWorld (fun l => if Nat.eqb l 0 then books else []) [] None.


(** A book of which only the [read] flag matters. *)
Definition marked (r : bool) : Book.t := Book.mk (lit "t") (lit "a") 2000 [] r.

(** A title of two code points, a high and a low surrogate. *)
Definition surrogate_book : Book.t :=
  Book.mk [55357; 56832] (lit "a") 0 [] false.

(** The same with the two joined into one code point. *)
Definition joined_book : Book.t :=
  Book.mk [128512] (lit "a") 0 [] false.

(** A title outside ASCII and outside the basic plane, a negative year. *)
Definition unicode_book : Book.t :=
  Book.mk [233; 128512; 34; 92; 10] (lit "Herbert") (-65) (lit "SF") true.

Definition with_file (text : string) : world :=
  mkWorld (fun _ => []) [] (Some (lit text)).

(** A book whose year has 4301 digits. *)
Definition long_year_book : Book.t :=
  Book.mk (lit "t") (lit "a") (10 ^ 4300) [] false.

(** A file that holds one integer of 4301 digits, all of them 9. *)
Definition long_integer_file : world :=
  mkWorld (fun _ => []) [] (Some (repeat 57 4301)).

(** * The script around the functions *)


(** ** The form handlers of the script *)

(** Truth value of a [str]: it is not empty. *)
Definition truthy (s : pystr) : bool :=
  match s with
  | [] => false
  | _ :: _ => true
  end.

Section Handlers.

Variable lower : pystr -> pystr.
Variable floatstr : pystr -> pystr.

(** The block under [if submit:] of the page "Add a Book". The year comes
    from a number input with [min_value=0, step=1], an int already, so
    [int(pub_year)] is the identity. An exception of [save_library] leaves
    the block. *)
Definition on_add_submit (library : loc) (title author : pystr) (pub_year : Z)
    (genre : pystr) (read_status : bool) : M (outcome unit) :=
  if truthy title && truthy author then
    add_book library title author pub_year genre read_status ;;
    save_library floatstr library
  else
    st_error (lit "Title and Author are required fields.") ;;
    ret (Returned tt).

(** The block under [if st.button("Remove Book"):] of the page
    "Remove a Book". *)
Definition on_remove_click (library : loc) (title_to_remove : pystr)
  : M (outcome unit) :=
  if truthy title_to_remove then
    remove_book lower library title_to_remove ;;
    save_library floatstr library
  else
    st_error (lit "Please enter a book title.") ;;
    ret (Returned tt).

(** What the user can submit to change the library, and a session as the
    sequence of submissions, each handled by one run of the script on the
    list object of the session state. A run that an exception ends leaves
    the session state as it is then, and the next run starts from it. *)
Inductive submission :=
| AddSubmitted (title author : pystr) (pub_year : Z) (genre : pystr)
               (read_status : bool)
| RemoveClicked (title_to_remove : pystr).

Definition handle (library : loc) (s : submission) : M (outcome unit) :=
  match s with
  | AddSubmitted t a y g r => on_add_submit library t a y g r
  | RemoveClicked t => on_remove_click library t
  end.

Fixpoint session (library : loc) (l : list submission) : M unit :=
  match l with
  | [] => ret tt
  | s :: l' => handle library s ;; session library l'
  end.

(** The file holds what [json.dump] writes for the list object at
    [library]. *)
Definition in_sync (library : loc) (w : world) : Prop :=
  data_file w = Some (json_dump floatstr 4 (library_value (heap w library))).

End Handlers.

(** Text of line feeds and printable ASCII only. *)
Definition ascii_text (s : pystr) : bool :=
  forallb (fun c => (c =? 10) || ((32 <=? c) && (c <=? 126))) s.

(** The message of [load_library] on a file that is no JSON. *)
Definition decode_error_text : pystr :=
  lit "Error decoding the library file. Starting with an empty library.".

(** The message of the page "Add a Book" on a missing title or author. *)
Definition required_text : pystr := lit "Title and Author are required fields.".

(** The message of the page "Remove a Book" on a missing title. *)
Definition enter_title_text : pystr := lit "Please enter a book title.".

(** Title and author are not empty, as the page "Add a Book" demands. *)
Definition named (book : Book.t) : bool :=
  truthy (Book.title book) && truthy (Book.author book).

(** The text fields of a submission are well-formed text, and its year
    has a numeral within the limit of the interpreter. *)
Definition submission_ok (s : submission) : bool :=
  match s with
  | AddSubmitted t a y g _ => text_ok t && text_ok a && text_ok g && int_ok y
  | RemoveClicked _ => true
  end.

(** ** Sample data for the handlers *)

(** A world whose file holds the list at address 0. *)
Definition synced (books : list Book.t) : world :=
  mkWorld (fun l => if Nat.eqb l 0 then books else []) []
          (Some (json_dump (fun x => x) 4 (library_value books))).

(** An accepted addition, a rejected one, a removal and another addition. *)
Definition sample_session : list submission :=
  [ AddSubmitted (lit "Dune") (lit "Herbert") 1965 (lit "SF") true;
    AddSubmitted [] (lit "Nobody") 0 [] false;
    RemoveClicked (lit "dune");
    AddSubmitted (lit "Emma") (lit "Austen") 1815 [] false ].

(** A file written with indent 2, a line feed before the text and a space
    and a line feed after it. *)
Definition padded_file : world :=
  mkWorld (fun _ => []) []
          (Some ([10] ++ json_dump (fun x => x) 2 (library_value [unicode_book])
                 ++ [32; 10])).

(** * Properties of the catalogue operations *)

Lemma startswith_spec (p s : pystr) :
  startswith p s = true <-> exists post, s = p ++ post.
Proof.
  revert s; induction p as [|a p IH]; intros s; simpl.
  - split; [intros _; now exists s | reflexivity].
  - destruct s as [|b s].
    + split; [discriminate | intros [post H]; discriminate].
    + rewrite andb_true_iff, Z.eqb_eq, IH. split.
      * intros [-> [post ->]]. now exists post.
      * intros [post H]. injection H as -> ->. split; [reflexivity | now exists post].
Qed.

Lemma contains_spec (sub s : pystr) :
  contains sub s = true <-> substring sub s.
Proof.
  unfold substring. induction s as [|c s IH]; simpl.
  - rewrite orb_false_r, startswith_spec. split.
    + intros [post H]. now exists [], post.
    + intros [pre [post H]]. destruct pre; [now exists post | discriminate].
  - rewrite orb_true_iff, startswith_spec, IH. split.
    + intros [[post H] | [pre [post H]]].
      * now exists [], post.
      * exists (c :: pre), post. now rewrite H.
    + intros [[|c' pre] [post H]].
      * left. now exists post.
      * right. injection H as _ H. now exists pre, post.
Qed.

Lemma contains_empty (s : pystr) : contains [] s = true.
Proof. destruct s; reflexivity. Qed.

Lemma selects_filter {A} (f : A -> bool) (P : A -> Prop) (l : list A) :
  (forall a, f a = true <-> P a) -> selects P l (filter f l).
Proof.
  intros Hf. induction l as [|a l IH]; simpl.
  - constructor.
  - destruct (f a) eqn:E.
    + apply selects_keep; [now apply Hf | exact IH].
    + apply selects_drop; [|exact IH]. intros HP. apply Hf in HP. congruence.
Qed.

(** What [selects] relates is determined by the list. *)
Lemma selects_functional {A} (P : A -> Prop) (l r r' : list A) :
  selects P l r -> selects P l r' -> r = r'.
Proof.
  intros H; revert r'. induction H; intros r' H'; inversion H'; subst;
    try reflexivity; try contradiction; try (f_equal; auto); auto.
Qed.

Lemma selects_In {A} (P : A -> Prop) (l r : list A) :
  selects P l r -> forall a, In a r <-> In a l /\ P a.
Proof.
  induction 1; intros x; simpl.
  - tauto.
  - rewrite IHselects. split; [intros [->|[? ?]]; auto | intros [[->|?] ?]; auto].
  - rewrite IHselects. split; [intros [? ?]; auto | intros [[->|?] ?]; [contradiction | auto]].
Qed.

Lemma filter_length_lt {A} (f : A -> bool) (l : list A) :
  (length (filter f l) < length l)%nat <-> exists a, In a l /\ f a = false.
Proof.
  induction l as [|a l IH]; simpl.
  - split; [lia | intros [a [[] _]]].
  - pose proof (filter_length_le f l) as Hle. destruct (f a) eqn:E; simpl.
    + rewrite <- Nat.succ_lt_mono, IH. split.
      * intros [b [Hb Hf]]. exists b; auto.
      * intros [b [[->|Hb] Hf]]; [congruence | exists b; auto].
    + split; [intros _; exists a; auto | intros _; lia].
Qed.

Lemma filter_idempotent {A} (f : A -> bool) (l : list A) :
  filter f (filter f l) = filter f l.
Proof.
  induction l as [|a l IH]; simpl; [reflexivity|].
  destruct (f a) eqn:E; simpl; [rewrite E, IH|]; auto.
Qed.

Lemma pystr_eqb_eq (a b : pystr) : pystr_eqb a b = true <-> a = b.
Proof. unfold pystr_eqb. destruct (pystr_eq_dec a b); split; congruence. Qed.

Lemma heap_list_set (l : loc) (v : list Book.t) (w : world) :
  heap (snd (list_set l v w)) l = v.
Proof. simpl. now rewrite Nat.eqb_refl. Qed.

Lemma heap_list_set_other (l l' : loc) (v : list Book.t) (w : world) :
  l' <> l -> heap (snd (list_set l v w)) l' = heap w l'.
Proof. intros H. simpl. apply Nat.eqb_neq in H. now rewrite H. Qed.

Section CatalogueFacts.

Variable lower : pystr -> pystr.

Lemma keep_spec (t : pystr) (book : Book.t) :
  keep lower t book = true <-> ~ same_title lower (Book.title book) t.
Proof.
  unfold keep, same_title. rewrite negb_true_iff, <- not_true_iff_false.
  now rewrite pystr_eqb_eq.
Qed.

Lemma remove_book_heap (w : world) (library : loc) (t : pystr) :
  heap (exec (remove_book lower library t) w) library =
  filter (keep lower t) (heap w library).
Proof.
  unfold exec, remove_book, bind, list_get, keep; simpl.
  rewrite Nat.eqb_refl.
  destruct (_ <? _)%nat; simpl; now rewrite Nat.eqb_refl.
Qed.

Lemma remove_book_frame (w : world) (library : loc) (t : pystr) :
  same_except library w (exec (remove_book lower library t) w).
Proof.
  unfold same_except, exec, remove_book, bind, list_get; simpl.
  rewrite Nat.eqb_refl.
  destruct (_ <? _)%nat; simpl; (split; [|reflexivity]);
    intros l' Hl'; apply Nat.eqb_neq in Hl'; now rewrite Hl'.
Qed.

Lemma remove_book_ui (w : world) (library : loc) (t : pystr) :
  ui (exec (remove_book lower library t) w) =
  ui w ++ [if (length (filter (keep lower t) (heap w library))
               <? length (heap w library))%nat
           then Success (removed_text t) else Warning (not_found_text t)].
Proof.
  unfold exec, remove_book, bind, list_get, keep; simpl.
  rewrite Nat.eqb_refl.
  destruct (_ <? _)%nat; reflexivity.
Qed.

(** C2. [remove_book] replaces the contents of the list object, in place,
    by exactly the records whose title differs from the given one after
    lowercasing both in full: every record with an equal title goes, however
    many there are, every other record stays, with its multiplicity and in
    the original order. No other list object and not the file is touched. *)
Theorem remove_book_removes_all_matching (w : world) (library : loc) (t : pystr) :
  let w' := exec (remove_book lower library t) w in
  selects (fun book => ~ same_title lower (Book.title book) t)
          (heap w library) (heap w' library) /\
  same_except library w w'.
Proof.
  cbv zeta. split.
  - rewrite remove_book_heap. apply selects_filter. intros b. apply keep_spec.
  - apply remove_book_frame.
Qed.

(** C7. [remove_book] signals "removed" exactly when some record has a title
    equal to the given one after lowercasing, which is exactly when the list
    got shorter; otherwise it signals "not found". Either message is built
    from the title alone. *)
Theorem remove_book_signal (w : world) (library : loc) (t : pystr) :
  let w' := exec (remove_book lower library t) w in
  let found := exists book, In book (heap w library) /\
                            same_title lower (Book.title book) t in
  (found <-> (length (heap w' library) < length (heap w library))%nat) /\
  (found <-> ui w' = ui w ++ [Success (removed_text t)]) /\
  (~ found <-> ui w' = ui w ++ [Warning (not_found_text t)]).
Proof.
  cbv zeta.
  rewrite remove_book_heap, remove_book_ui.
  set (found := exists book, _).
  assert (Hf : found <->
               (length (filter (keep lower t) (heap w library))
                < length (heap w library))%nat).
  { rewrite filter_length_lt. unfold found. split.
    - intros [b [Hb Hs]]. exists b. split; [exact Hb|].
      apply not_true_iff_false. rewrite keep_spec. tauto.
    - intros [b [Hb Hk]]. exists b. split; [exact Hb|].
      apply not_true_iff_false in Hk. rewrite keep_spec in Hk.
      unfold same_title in *. destruct (pystr_eq_dec (lower (Book.title b)) (lower t)); tauto. }
  split; [exact Hf|].
  destruct (Nat.ltb_spec (length (filter (keep lower t) (heap w library)))
                         (length (heap w library))) as [Hlt|Hge].
  - split; split; try tauto.
    + intros H. apply app_inv_head in H. discriminate.
  - assert (~ found) by (rewrite Hf; lia).
    split; split; try tauto.
    intros H'. apply app_inv_head in H'. discriminate.
Qed.

(** C10. A second [remove_book] with the same title changes no list and not
    the file, and signals "not found". *)
Theorem remove_book_idempotent (w : world) (library : loc) (t : pystr) :
  let w1 := exec (remove_book lower library t) w in
  let w2 := exec (remove_book lower library t) w1 in
  (forall l, heap w2 l = heap w1 l) /\
  data_file w2 = data_file w1 /\
  ui w2 = ui w1 ++ [Warning (not_found_text t)].
Proof.
  cbv zeta. set (w1 := exec (remove_book lower library t) w).
  assert (H1 : heap w1 library = filter (keep lower t) (heap w library))
    by apply remove_book_heap.
  split; [|split].
  - intros l. destruct (Nat.eq_dec l library) as [->|Hl].
    + rewrite remove_book_heap, H1. apply filter_idempotent.
    + now apply (remove_book_frame w1 library t).
  - apply (remove_book_frame w1 library t).
  - rewrite remove_book_ui, H1, filter_idempotent.
    now rewrite Nat.ltb_irrefl.
Qed.

(** C3. [search_books] returns exactly the records for which the lowercased
    keyword is a substring of the lowercased title or of the lowercased
    author, in their original order, and changes nothing: every list
    object, the file and the alerts are as before. *)
Theorem search_books_selects_matches (w : world) (library : loc) (keyword : pystr) :
  selects (matches lower keyword) (heap w library)
          (eval (search_books lower library keyword) w) /\
  exec (search_books lower library keyword) w = w.
Proof.
  split; [|reflexivity].
  unfold eval, search_books, bind, list_get, ret; simpl.
  apply selects_filter. intros b. unfold matches.
  now rewrite orb_true_iff, !contains_spec.
Qed.

(** C9. With the empty keyword [search_books] returns the whole collection,
    unchanged: the empty string lowercases to itself and occurs in every
    title. *)
Theorem search_books_empty_keyword (w : world) (library : loc) :
  lower [] = [] ->
  eval (search_books lower library []) w = heap w library /\
  exec (search_books lower library []) w = w.
Proof.
  intros Hl. split; [|reflexivity].
  unfold eval, search_books, bind, list_get, ret; simpl.
  rewrite Hl. induction (heap w library) as [|b l IH]; simpl; [reflexivity|].
  now rewrite contains_empty, IH.
Qed.

End CatalogueFacts.

(** C5. [add_book] puts exactly one record, built from the five values, at
    the end of the list object; the records already there keep their
    contents and places, and no other list object and not the file is
    touched. *)
Theorem add_book_appends_one (w : world) (library : loc)
    (t a : pystr) (y : Z) (g : pystr) (r : bool) :
  let w' := exec (add_book library t a y g r) w in
  heap w' library = heap w library ++ [Book.mk t a y g r] /\
  same_except library w w'.
Proof.
  cbv zeta. unfold same_except, exec, add_book, bind, list_get; simpl.
  rewrite Nat.eqb_refl. split; [reflexivity|]. split; [|reflexivity].
  intros l' Hl'. apply Nat.eqb_neq in Hl'. now rewrite Hl'.
Qed.


(** The empty title and author are accepted like any other. *)
Example add_book_empty_title :
  let w := mkWorld (fun _ => []) [] None in
  add_book 0%nat [] [] 0 [] false w =
  (tt, mkWorld (heap (exec (add_book 0%nat [] [] 0 [] false) w))
               [Success (lit "Added '' to the library.")] None) /\
  heap (exec (add_book 0%nat [] [] 0 [] false) w) 0%nat =
  [Book.mk [] [] 0 [] false].
Proof. split; reflexivity. Qed.

(** ** The examples of the specification, on ASCII text *)

(** Both case variants of the title go, the third record stays. *)
Example remove_book_dune :
  heap (exec (remove_book lower_ascii 0%nat (lit "dune"))
             (shelf [titled "Dune" "x"; titled "DUNE" "y"; titled "Foundation" "z"]))
       0%nat
  = [titled "Foundation" "z"].
Proof. vm_compute. reflexivity. Qed.

(** A title that only contains the given one stays. *)
Example remove_book_not_substring :
  heap (exec (remove_book lower_ascii 0%nat (lit "dune"))
             (shelf [titled "Dune Messiah" "Herbert"]))
       0%nat
  = [titled "Dune Messiah" "Herbert"].
Proof. vm_compute. reflexivity. Qed.

Example search_books_tol :
  let w := shelf [titled "The Hobbit" "Tolkien"; titled "Dune" "Herbert"] in
  eval (search_books lower_ascii 0%nat (lit "tol")) w
  = [titled "The Hobbit" "Tolkien"] /\
  heap (exec (search_books lower_ascii 0%nat (lit "tol")) w) 0%nat
  = [titled "The Hobbit" "Tolkien"; titled "Dune" "Herbert"].
Proof. split; vm_compute; reflexivity. Qed.

Lemma search_books_empty_keyword_witness :
  lower_ascii [] = [] /\
  eval (search_books lower_ascii 0%nat [])
       (shelf [titled "The Hobbit" "Tolkien"; titled "Dune" "Herbert"])
  = [titled "The Hobbit" "Tolkien"; titled "Dune" "Herbert"].
Proof.
  split; [reflexivity|].
  apply (search_books_empty_keyword lower_ascii
           (shelf [titled "The Hobbit" "Tolkien"; titled "Dune" "Herbert"]) 0%nat).
  reflexivity.
Defined.

(** * Binary64 rounding and the statistics *)

Section Rounding.

Local Open Scope Q_scope.


Lemma pow2_pos (e : Z) : 0 < 2 ^ e.
Proof. apply Qpower_0_lt. reflexivity. Qed.

Lemma pow2_add (a b : Z) : 2 ^ (a + b) == 2 ^ a * 2 ^ b.
Proof. apply Qpower_plus. discriminate. Qed.

Lemma pow2_le (a b : Z) : (a <= b)%Z -> 2 ^ a <= 2 ^ b.
Proof. intros H. apply Qpower_le_compat_l; [exact H | discriminate]. Qed.

Lemma pow2_Z (n : Z) : (0 <= n)%Z -> inject_Z (2 ^ n) == 2 ^ n.
Proof. intros H. now rewrite Zpower_Qpower. Qed.

Lemma rne_cases (t : Q) :
  (rne t = Qfloor t /\ t - inject_Z (Qfloor t) <= 1 # 2) \/
  (rne t = (Qfloor t + 1)%Z /\ 1 # 2 <= t - inject_Z (Qfloor t)).
Proof.
  unfold rne.
  destruct (Qcompare_spec (t - inject_Z (Qfloor t)) (1 # 2)) as [H|H|H].
  - destruct (Z.even (Qfloor t)); [left | right]; split; auto; rewrite H; apply Qle_refl.
  - left. split; auto. now apply Qlt_le_weak.
  - right. split; auto. now apply Qlt_le_weak.
Qed.

Lemma rne_le (t : Q) (k : Z) : t <= inject_Z k -> (rne t <= k)%Z.
Proof.
  intros H. pose proof (Qfloor_le t) as Hf.
  destruct (rne_cases t) as [[-> _]|[-> Hh]].
  - rewrite Zle_Qle. lra.
  - assert (inject_Z (Qfloor t) < inject_Z k) as Hlt by lra.
    rewrite <- Zlt_Qlt in Hlt. lia.
Qed.

Lemma rne_ge (t : Q) (k : Z) : inject_Z k <= t -> (k <= rne t)%Z.
Proof.
  intros H. pose proof (Qlt_floor t) as Hf.
  assert (inject_Z k < inject_Z (Qfloor t + 1)) as Hlt by lra.
  rewrite <- Zlt_Qlt in Hlt.
  destruct (rne_cases t) as [[-> _]|[-> _]]; lia.
Qed.

Lemma rne_err (t : Q) : Qabs (inject_Z (rne t) - t) <= 1 # 2.
Proof.
  pose proof (Qfloor_le t) as Hf. pose proof (Qlt_floor t) as Hc.
  rewrite inject_Z_plus in Hc. change (inject_Z 1) with 1 in Hc.
  apply Qabs_Qle_condition.
  destruct (rne_cases t) as [[-> Hh]|[-> Hh]];
    [|rewrite inject_Z_plus; change (inject_Z 1) with 1]; split; lra.
Qed.


Lemma Qlog2_spec (x : Q) : 0 < x -> 2 ^ Qlog2 x <= x.
Proof.
  intros Hx. unfold Qlog2.
  destruct (Qle_bool _ x) eqn:E; [now apply Qle_bool_iff|]. clear E.
  destruct x as [n d]. simpl Qnum; simpl Qden.
  assert (Hn : (0 < n)%Z) by (unfold Qlt in Hx; simpl in Hx; lia).
  destruct (Z.log2_spec n Hn) as [Ha _].
  destruct (Z.log2_spec (Zpos d) (Pos2Z.is_pos d)) as [_ Hb].
  pose proof (Z.log2_nonneg n) as Ha0.
  pose proof (Z.log2_nonneg (Zpos d)) as Hb0.
  set (a := Z.log2 n) in *. set (b := Z.log2 (Zpos d)) in *.
  replace (a - b - 1)%Z with (a - (b + 1))%Z by lia.
  rewrite Qpower_minus by discriminate.
  rewrite <- (pow2_Z a), <- (pow2_Z (b + 1)) by lia.
  change (Z.succ b) with (b + 1)%Z in Hb.
  destruct (2 ^ (b + 1))%Z as [|B|B] eqn:EB; try lia.
  rewrite <- Qmake_Qdiv. unfold Qle; simpl. nia.
Qed.

Lemma RN_pos_eq (x : Q) :
  RN_pos x == inject_Z (rne (x / 2 ^ ulp_exp x)) * 2 ^ ulp_exp x.
Proof. unfold RN_pos. apply Qred_correct. Qed.

Lemma ulp_exp_cases (x : Q) :
  0 < x ->
  ulp_exp x = (-1074)%Z \/
  ((-1074 < ulp_exp x)%Z /\ 2 ^ (ulp_exp x + 52) <= x).
Proof.
  intros Hx. unfold ulp_exp.
  destruct (Z.max_spec (Qlog2 x - 52) (-1074)) as [[H ->]|[H ->]].
  - now left.
  - destruct (Z.eq_dec (Qlog2 x - 52) (-1074)) as [E|E]; [now left|]. right.
    split; [lia|]. replace (Qlog2 x - 52 + 52)%Z with (Qlog2 x) by lia.
    now apply Qlog2_spec.
Qed.

Lemma ulp_exp_min (x : Q) : (-1074 <= ulp_exp x)%Z.
Proof. unfold ulp_exp. lia. Qed.

(** Rounding does not cross a representable bound. *)
Lemma RN_pos_le (x : Q) (M eB : Z) :
  0 < x -> x <= inject_Z M * 2 ^ eB -> (-1074 <= eB)%Z -> (M < 2 ^ 53)%Z ->
  RN_pos x <= inject_Z M * 2 ^ eB.
Proof.
  intros Hx HB He HM. rewrite RN_pos_eq.
  set (e := ulp_exp x).
  pose proof (pow2_pos e) as Hpe. pose proof (pow2_pos eB) as HpB.
  destruct (Z_le_gt_dec e eB) as [Hle|Hgt].
  - assert (HK : inject_Z (M * 2 ^ (eB - e)) * 2 ^ e == inject_Z M * 2 ^ eB).
    { rewrite inject_Z_mult, pow2_Z by lia.
      rewrite <- Qmult_assoc, <- pow2_add.
      now replace (eB - e + e)%Z with eB by lia. }
    rewrite <- HK. apply Qmult_le_compat_r; [|now apply Qlt_le_weak].
    rewrite <- Zle_Qle. apply rne_le.
    apply Qle_shift_div_r; [exact Hpe|]. now rewrite HK.
  - exfalso.
    destruct (ulp_exp_cases x Hx) as [E|[_ Hlow]]; [fold e in E; lia | fold e in Hlow].
    assert (HM' : inject_Z M <= inject_Z (2 ^ 53 - 1)) by (rewrite <- Zle_Qle; lia).
    assert (H1 : inject_Z M * 2 ^ eB <= inject_Z (2 ^ 53 - 1) * 2 ^ eB)
      by (apply Qmult_le_compat_r; [exact HM' | now apply Qlt_le_weak]).
    assert (H2 : inject_Z (2 ^ 53 - 1) * 2 ^ eB < 2 ^ 53 * 2 ^ eB).
    { apply Qmult_lt_compat_r; [exact HpB | reflexivity]. }
    assert (H3 : 2 ^ 53 * 2 ^ eB <= 2 ^ (e + 52)).
    { rewrite <- pow2_add. apply pow2_le. lia. }
    lra.
Qed.

Lemma RN_pos_ge0 (x : Q) : 0 < x -> 0 <= RN_pos x.
Proof.
  intros Hx. rewrite RN_pos_eq.
  pose proof (pow2_pos (ulp_exp x)) as Hpe.
  apply Qmult_le_0_compat; [|now apply Qlt_le_weak].
  change 0 with (inject_Z 0). rewrite <- Zle_Qle. apply rne_ge.
  apply Qle_shift_div_l; [exact Hpe|]. change (inject_Z 0) with 0. lra.
Qed.

Lemma RN_pos_err (x : Q) :
  0 < x -> Qabs (RN_pos x - x) <= x * 2 ^ (-53) + 2 ^ (-1075).
Proof.
  intros Hx. rewrite RN_pos_eq.
  set (e := ulp_exp x). pose proof (pow2_pos e) as Hpe.
  set (t := x / 2 ^ e).
  assert (Ht : x == t * 2 ^ e).
  { unfold t. field. intros H0. rewrite H0 in Hpe. now apply Qlt_irrefl in Hpe. }
  assert (Hd : inject_Z (rne t) * 2 ^ e - x == (inject_Z (rne t) - t) * 2 ^ e)
    by (rewrite Ht at 1; ring).
  rewrite Hd, Qabs_Qmult, (Qabs_pos (2 ^ e)) by now apply Qlt_le_weak.
  assert (Hh : Qabs (inject_Z (rne t) - t) * 2 ^ e <= (1 # 2) * 2 ^ e)
    by (apply Qmult_le_compat_r; [apply rne_err | now apply Qlt_le_weak]).
  assert (Hhalf : (1 # 2) * 2 ^ e == 2 ^ (e - 1)).
  { replace (e - 1)%Z with (e + -1)%Z by lia. rewrite pow2_add. 
    change (2 ^ (-1)) with (1 # 2). ring. }
  rewrite Hhalf in Hh.
  pose proof (pow2_pos (-1075)) as Hp1. pose proof (pow2_pos (-53)) as Hp2.
  destruct (ulp_exp_cases x Hx) as [E|[_ Hlow]]; [fold e in E | fold e in Hlow].
  - assert (H5 : 2 ^ (e - 1) == 2 ^ (-1075)) by (now rewrite E).
    assert (0 <= x * 2 ^ (-53)) by (apply Qmult_le_0_compat; now apply Qlt_le_weak).
    rewrite H5 in Hh. eapply Qle_trans; [exact Hh|].
    rewrite <- (Qplus_0_l (2 ^ (-1075))) at 1.
    apply Qplus_le_compat; [assumption | apply Qle_refl].
  - assert (H3 : 2 ^ (e - 1) == 2 ^ (e + 52) * 2 ^ (-53)).
    { rewrite <- pow2_add. now replace (e + 52 + -53)%Z with (e - 1)%Z by lia. }
    assert (H4 : 2 ^ (e + 52) * 2 ^ (-53) <= x * 2 ^ (-53))
      by (apply Qmult_le_compat_r; [exact Hlow | now apply Qlt_le_weak]).
    rewrite H3 in Hh. eapply Qle_trans; [exact Hh|]. eapply Qle_trans; [exact H4|].
    rewrite <- (Qplus_0_r (x * 2 ^ (-53))) at 1.
    apply Qplus_le_compat; [apply Qle_refl | now apply Qlt_le_weak].
Qed.

Lemma RN_cases (x : Q) :
  0 <= x -> (x == 0 /\ RN x = 0) \/ (0 < x /\ RN x = RN_pos x).
Proof.
  destruct x as [[|n|n] d]; unfold RN; cbn [Qnum]; intros H.
  - left. split; reflexivity.
  - right. split; reflexivity.
  - exfalso. unfold Qle in H; cbn [Qnum Qden] in H. lia.
Qed.

Lemma RN_le (x : Q) (M eB : Z) :
  0 <= x -> x <= inject_Z M * 2 ^ eB -> (-1074 <= eB)%Z -> (M < 2 ^ 53)%Z ->
  RN x <= inject_Z M * 2 ^ eB.
Proof.
  intros Hx HB He HM. destruct (RN_cases x Hx) as [[H0 ->]|[Hp ->]].
  - lra.
  - now apply RN_pos_le.
Qed.

Lemma RN_ge0 (x : Q) : 0 <= x -> 0 <= RN x.
Proof.
  intros Hx. destruct (RN_cases x Hx) as [[H0 ->]|[Hp ->]].
  - apply Qle_refl.
  - now apply RN_pos_ge0.
Qed.

Lemma RN_err (x : Q) :
  0 <= x -> Qabs (RN x - x) <= x * 2 ^ (-53) + 2 ^ (-1075).
Proof.
  intros Hx. destruct (RN_cases x Hx) as [[H0 ->]|[Hp ->]].
  - pose proof (pow2_pos (-1075)) as Hp1. pose proof (pow2_pos (-53)) as Hp2.
    assert (E : 0 - x == 0) by lra. rewrite E. simpl Qabs.
    rewrite H0. lra.
  - now apply RN_pos_err.
Qed.


Lemma count_read_length (books : list Book.t) :
  count_read books = Z.of_nat (length (filter Book.read books)).
Proof.
  unfold count_read. induction (filter Book.read books) as [|b l IH].
  - reflexivity.
  - cbn [List.map fold_right length]. rewrite IH. lia.
Qed.

Lemma display_statistics_eval (w : world) (library : loc) :
  display_statistics library w =
  (let n := Z.of_nat (length (heap w library)) in
   (n, if (n =? 0)%Z then PyInt 0
       else PyFloat (float_mul (int_truediv (count_read (heap w library)) n)
                               (float_of_int 100))), w).
Proof.
  unfold display_statistics, bind, list_get, ret. cbv zeta.
  now destruct (_ =? 0)%Z.
Qed.

Lemma percent_bounds (r n : Z) :
  (0 <= r <= n)%Z -> (0 < n)%Z ->
  let p := float_mul (int_truediv r n) (float_of_int 100) in
  0 <= p /\ p <= 100 /\
  Qabs (p - 100 * inject_Z r / inject_Z n) <= 1 # (2 ^ 45).
Proof.
  intros Hr Hn. cbv zeta. unfold float_mul, int_truediv, float_of_int.
  set (q := inject_Z r / inject_Z n).
  assert (Hn' : 0 < inject_Z n) by (change 0 with (inject_Z 0); now rewrite <- Zlt_Qlt).
  assert (Hq0 : 0 <= q).
  { apply Qle_shift_div_l; [exact Hn'|]. rewrite Qmult_0_l.
    change 0 with (inject_Z 0). rewrite <- Zle_Qle. lia. }
  assert (Hq1 : q <= 1).
  { apply Qle_shift_div_r; [exact Hn'|]. rewrite Qmult_1_l.
    rewrite <- Zle_Qle. lia. }
  assert (Hone : inject_Z (2 ^ 52) * 2 ^ (-52) == 1) by reflexivity.
  assert (Hhun : inject_Z (100 * 2 ^ 46) * 2 ^ (-46) == 100) by reflexivity.
  set (q1 := RN q).
  assert (Hq1_0 : 0 <= q1) by now apply RN_ge0.
  assert (Hq1_1 : q1 <= 1).
  { rewrite <- Hone. apply RN_le; [exact Hq0 | now rewrite Hone | lia | reflexivity]. }
  assert (Hx0 : 0 <= q1 * inject_Z 100).
  { apply Qmult_le_0_compat; [exact Hq1_0 | discriminate]. }
  assert (Hx1 : q1 * inject_Z 100 <= 100).
  { change (inject_Z 100) with 100. lra. }
  set (p := RN (q1 * inject_Z 100)).
  assert (Hp0 : 0 <= p) by now apply RN_ge0.
  assert (Hp1 : p <= 100).
  { rewrite <- Hhun. apply RN_le; [exact Hx0 | now rewrite Hhun | lia | reflexivity]. }
  split; [exact Hp0|]. split; [exact Hp1|].
  pose proof (RN_err q Hq0) as E1. fold q1 in E1.
  pose proof (RN_err _ Hx0) as E2. fold p in E2.
  assert (Heta : 2 ^ (-1075) <= 2 ^ (-60)) by (apply pow2_le; lia).
  pose proof (pow2_pos (-1075)) as Heta0.
  set (eta := 2 ^ (-1075)) in *.
  change (2 ^ (-60)) with (1 # 1152921504606846976) in Heta.
  change (2 ^ (-53)) with (1 # 9007199254740992) in E1, E2.
  change (inject_Z 100) with 100 in E2.
  apply Qabs_Qle_condition in E1. apply Qabs_Qle_condition in E2.
  apply Qabs_Qle_condition.
  change (1 # 2 ^ 45) with (1 # 35184372088832).
  assert (Hq : 100 * inject_Z r / inject_Z n == 100 * q) by (unfold q; field; lra).
  rewrite Hq.
  split; lra.
Qed.

End Rounding.

(** C4, as the code has it. [display_statistics] returns the number [n] of
    records and changes nothing. With no record the percentage is the int
    0. Otherwise it is the float [(r / n) * 100], [r] the number of records
    marked read, the division and the product each rounded to the nearest
    binary64 value: it lies in [0, 100] and is within [2^-45] of the exact
    [100 * r / n]. *)
Theorem display_statistics_percentage (w : world) (library : loc) :
  let books := heap w library in
  let n := Z.of_nat (length books) in
  let r := Z.of_nat (length (filter Book.read books)) in
  exec (display_statistics library) w = w /\
  fst (eval (display_statistics library) w) = n /\
  (n = 0 -> snd (eval (display_statistics library) w) = PyInt 0) /\
  (0 < n ->
   exists p : float64,
     snd (eval (display_statistics library) w) = PyFloat p /\
     p = float_mul (int_truediv r n) (float_of_int 100) /\
     (0 <= p /\ p <= 100 /\
      Qabs (p - 100 * inject_Z r / inject_Z n) <= 1 # (2 ^ 45))%Q).
Proof.
  cbv zeta. unfold exec, eval. rewrite display_statistics_eval. cbv zeta.
  cbn [fst snd]. rewrite count_read_length.
  split; [reflexivity|]. split; [reflexivity|]. split.
  - intros ->. reflexivity.
  - intros Hn. destruct (Z.eqb_spec (Z.of_nat (length (heap w library))) 0) as [E|_]; [lia|].
    eexists. split; [reflexivity|]. split; [reflexivity|].
    apply percent_bounds; [|exact Hn].
    pose proof (filter_length_le Book.read (heap w library)). lia.
Qed.

Lemma display_statistics_percentage_witness :
  exists p : float64,
    snd (eval (display_statistics 0%nat) (shelf [marked true; marked false])) = PyFloat p /\
    (0 <= p /\ p <= 100)%Q.
Proof.
  destruct (display_statistics_percentage (shelf [marked true; marked false]) 0%nat)
    as (_ & _ & _ & H).
  destruct H as (p & Hp & _ & H0 & H1 & _); [simpl; lia|].
  exists p. auto.
Defined.

(** The examples of the specification: the empty collection, and four
    records of which one is read. *)
Example display_statistics_empty :
  eval (display_statistics 0%nat) (shelf []) = (0, PyInt 0).
Proof. reflexivity. Qed.

Example display_statistics_quarter :
  eval (display_statistics 0%nat)
       (shelf [marked false; marked true; marked false; marked false])
  = (4, PyFloat 25%Q).
Proof. vm_compute. reflexivity. Qed.

(** Every collection of four records with exactly one read gives (4, 25.0). *)
Lemma display_statistics_one_of_four (w : world) (library : loc) :
  length (heap w library) = 4%nat ->
  length (filter Book.read (heap w library)) = 1%nat ->
  eval (display_statistics library) w = (4, PyFloat 25%Q).
Proof.
  intros Hn Hr. unfold eval. rewrite display_statistics_eval. cbv zeta.
  rewrite count_read_length, Hn, Hr. vm_compute. reflexivity.
Qed.

(** On every collection of up to 100 records the percentage [RN] gives is
    the one the primitive binary64 floats give. *)
Example percentage_agrees_with_binary64 : agree_upto 100 = true.
Proof. vm_compute. reflexivity. Qed.

(** C4 as stated fails: with 7 of 25 records read the exact percentage is
    28, and the function returns the float next above it. *)
Lemma display_statistics_not_exact :
  let w := shelf (repeat (marked true) 7 ++ repeat (marked false) 18) in
  exists p : float64,
    eval (display_statistics 0%nat) w = (25, PyFloat p) /\
    p = (7881299347898369 # 281474976710656)%Q /\
    ~ (p == 100 * 7 / 25)%Q.
Proof.
  cbv zeta. eexists. split; [vm_compute; reflexivity|].
  split; [reflexivity|]. intros H. vm_compute in H. discriminate.
Qed.

(** * The [json] encoder and decoder *)


(** ** Hexadecimal escapes *)

Lemma hexval_hexdigit (d : Z) : 0 <= d < 16 -> hexval (hexdigit d) = Some d.
Proof.
  intros H.
  assert (d = 0 \/ d = 1 \/ d = 2 \/ d = 3 \/ d = 4 \/ d = 5 \/ d = 6 \/ d = 7 \/
          d = 8 \/ d = 9 \/ d = 10 \/ d = 11 \/ d = 12 \/ d = 13 \/ d = 14 \/ d = 15)
    as E by lia.
  repeat (destruct E as [->|E]; [reflexivity|]). subst. reflexivity.
Qed.

Lemma nibble (n k : Z) : 0 <= k -> Z.land (Z.shiftr n k) 15 = (n / 2 ^ k) mod 16.
Proof.
  intros Hk. rewrite Z.shiftr_div_pow2 by exact Hk.
  change 15 with (Z.ones 4). now rewrite Z.land_ones by lia.
Qed.

Lemma decode_hex4 (n : Z) :
  0 <= n < 65536 ->
  exists h1 h2 h3 h4, hex4 n = [h1; h2; h3; h4] /\ decode_uXXXX h1 h2 h3 h4 = Some n.
Proof.
  intros Hn. unfold hex4. do 4 eexists. split; [reflexivity|].
  unfold decode_uXXXX.
  rewrite !nibble by lia.
  replace (Z.land n 15) with (n mod 16)
    by (change 15 with (Z.ones 4); now rewrite Z.land_ones by lia).
  change (2 ^ 12) with 4096. change (2 ^ 8) with 256. change (2 ^ 4) with 16.
  rewrite !hexval_hexdigit by (apply Z.mod_pos_bound; lia).
  f_equal. Z.div_mod_to_equations. lia.
Qed.

(** ** Surrogate pairs *)

Lemma lor_disjoint (m b k : Z) :
  0 <= k -> 0 <= b < 2 ^ k -> Z.lor (m * 2 ^ k) b = m * 2 ^ k + b.
Proof.
  intros Hk Hb.
  assert (Hland : Z.land (m * 2 ^ k) b = 0).
  { apply Z.bits_inj'. intros i Hi. rewrite Z.land_spec, Z.bits_0.
    destruct (Z.lt_ge_cases i k) as [Hlt|Hge].
    - rewrite Z.mul_pow2_bits_low by lia. reflexivity.
    - destruct (Z.eq_dec b 0) as [->|Hb0].
      + now rewrite Z.bits_0, andb_false_r.
      + rewrite (Z.bits_above_log2 b i), andb_false_r; [reflexivity | lia |].
        assert (Z.log2 b < k) by (apply Z.log2_lt_pow2; lia). lia. }
  rewrite <- Z.lxor_lor by exact Hland.
  symmetry. now apply Z.add_nocarry_lxor.
Qed.

Lemma surrogates_of (c : Z) :
  65536 <= c < 1114112 ->
  let n := c - 65536 in
  let s1 := Z.lor 55296 (Z.land (Z.shiftr n 10) 1023) in
  let s2 := Z.lor 56320 (Z.land n 1023) in
  s1 = 55296 + n / 1024 /\ s2 = 56320 + n mod 1024 /\
  0 <= n / 1024 < 1024 /\ 0 <= n mod 1024 < 1024.
Proof.
  intros Hc. cbv zeta. set (n := c - 65536).
  assert (Hn : 0 <= n < 1048576) by (unfold n; lia).
  assert (Hhi : 0 <= n / 1024 < 1024) by (Z.div_mod_to_equations; lia).
  assert (Hlo : 0 <= n mod 1024 < 1024) by (apply Z.mod_pos_bound; lia).
  rewrite Z.shiftr_div_pow2 by lia. change (2 ^ 10) with 1024.
  change 1023 with (Z.ones 10). rewrite !Z.land_ones by lia.
  change (2 ^ 10) with 1024.
  rewrite (Z.mod_small (n / 1024)) by lia.
  change 55296 with (54 * 2 ^ 10). change 56320 with (55 * 2 ^ 10).
  rewrite !lor_disjoint by (change (2 ^ 10) with 1024; lia).
  auto.
Qed.

Lemma join_surrogates_of (c : Z) :
  65536 <= c < 1114112 ->
  let n := c - 65536 in
  join_surrogates (Z.lor 55296 (Z.land (Z.shiftr n 10) 1023))
                  (Z.lor 56320 (Z.land n 1023)) = c.
Proof.
  intros Hc. cbv zeta.
  destruct (surrogates_of c Hc) as (-> & -> & Hhi & Hlo).
  unfold join_surrogates.
  replace (55296 + (c - 65536) / 1024 - 55296) with ((c - 65536) / 1024) by lia.
  replace (56320 + (c - 65536) mod 1024 - 56320) with ((c - 65536) mod 1024) by lia.
  rewrite Z.shiftl_mul_pow2 by lia.
  rewrite lor_disjoint by (change (2 ^ 10) with 1024; lia).
  change (2 ^ 10) with 1024. Z.div_mod_to_equations. lia.
Qed.


(** ** Strings: [scanstring] undoes [py_encode_basestring_ascii] *)

Lemma scanstring_plain (c : Z) (s : pystr) :
  c <> 34 -> c <> 92 -> 32 <= c ->
  scanstring (c :: s) = prepend c (scanstring s).
Proof.
  intros H1 H2 H3. cbn [scanstring].
  apply Z.eqb_neq in H1, H2. rewrite H1, H2.
  assert ((c <? 32) = false) as -> by lia. reflexivity.
Qed.

Lemma scanstring_backslash (e c : Z) (s : pystr) :
  e <> 117 -> backslash e = Some c ->
  scanstring (92 :: e :: s) = prepend c (scanstring s).
Proof.
  intros H1 H2. cbn [scanstring]. cbn [Z.eqb Pos.eqb].
  apply Z.eqb_neq in H1. now rewrite H1, H2.
Qed.


Lemma scanstring_u (uni : Z) (tail : pystr) :
  0 <= uni < 65536 ->
  (is_high_surrogate uni = true -> not_joined tail) ->
  scanstring (u_escape uni ++ tail) = prepend uni (scanstring tail).
Proof.
  intros Hu Ht. destruct (decode_hex4 uni Hu) as (h1 & h2 & h3 & h4 & Hh & Hd).
  unfold u_escape. rewrite Hh. cbn [app scanstring]. cbn [Z.eqb Pos.eqb].
  rewrite Hd. destruct (is_high_surrogate uni); [|reflexivity].
  destruct (Ht eq_refl) as [Hn | (v & t & -> & Hv & Hl)].
  - destruct tail as [|b [|u s4]]; try reflexivity.
    destruct ((b =? 92) && (u =? 117)) eqn:E; [|reflexivity].
    apply andb_true_iff in E. destruct E as [E1 E2].
    apply Z.eqb_eq in E1, E2. subst. now destruct (Hn s4).
  - destruct (decode_hex4 v Hv) as (l1 & l2 & l3 & l4 & Hh' & Hd').
    unfold u_escape. rewrite Hh'. cbn [app]. cbn [Z.eqb Pos.eqb andb].
    now rewrite Hd', Hl.
Qed.

Lemma scanstring_pair (c : Z) (tail : pystr) :
  65536 <= c < 1114112 ->
  let n := c - 65536 in
  scanstring (u_escape (Z.lor 55296 (Z.land (Z.shiftr n 10) 1023)) ++
              u_escape (Z.lor 56320 (Z.land n 1023)) ++ tail)
  = prepend c (scanstring tail).
Proof.
  intros Hc n. pose proof (join_surrogates_of c Hc) as Hj.
  destruct (surrogates_of c Hc) as (E1 & E2 & Hhi & Hlo).
  cbv zeta in Hj, E1, E2. fold n in Hj, E1, E2, Hhi, Hlo.
  set (s1 := Z.lor 55296 _) in *. set (s2 := Z.lor 56320 _) in *.
  assert (H1 : 0 <= s1 < 65536) by lia. assert (H2 : 0 <= s2 < 65536) by lia.
  destruct (decode_hex4 s1 H1) as (h1 & h2 & h3 & h4 & Hh & Hd).
  destruct (decode_hex4 s2 H2) as (l1 & l2 & l3 & l4 & Hh' & Hd').
  unfold u_escape. rewrite Hh, Hh'. cbn [app scanstring]. cbn [Z.eqb Pos.eqb andb].
  rewrite Hd.
  assert (is_high_surrogate s1 = true) as -> by (unfold is_high_surrogate; lia).
  rewrite Hd'.
  assert (is_low_surrogate s2 = true) as -> by (unfold is_low_surrogate; lia).
  now rewrite Hj.
Qed.

Lemma escape_char_cases (c : Z) :
  0 <= c < 1114112 ->
  (exists e, escape_char c = [92; e] /\ e <> 117 /\ backslash e = Some c) \/
  (escape_char c = [c] /\ c <> 34 /\ c <> 92 /\ 32 <= c) \/
  (escape_char c = u_escape c /\ c < 65536) \/
  (escape_char c =
     u_escape (Z.lor 55296 (Z.land (Z.shiftr (c - 65536) 10) 1023)) ++
     u_escape (Z.lor 56320 (Z.land (c - 65536) 1023)) /\ 65536 <= c).
Proof.
  intros Hc. unfold escape_char.
  destruct (Z.eqb_spec c 92) as [->|H92]; [left; now exists 92|].
  destruct (Z.eqb_spec c 34) as [->|H34]; [left; now exists 34|].
  destruct (Z.eqb_spec c 8) as [->|H8]; [left; now exists 98|].
  destruct (Z.eqb_spec c 12) as [->|H12]; [left; now exists 102|].
  destruct (Z.eqb_spec c 10) as [->|H10]; [left; now exists 110|].
  destruct (Z.eqb_spec c 13) as [->|H13]; [left; now exists 114|].
  destruct (Z.eqb_spec c 9) as [->|H9]; [left; now exists 116|].
  destruct ((32 <=? c) && (c <=? 126)) eqn:E.
  - right; left. repeat split; auto. lia.
  - destruct (Z.ltb_spec c 65536).
    + right; right; left. auto.
    + right; right; right. auto.
Qed.

Lemma not_joined_escape (c : Z) (t : pystr) :
  0 <= c < 1114112 -> is_low_surrogate c = false ->
  not_joined (escape_char c ++ t).
Proof.
  intros Hc Hl.
  destruct (escape_char_cases c Hc)
    as [(e & -> & He & _) | [(-> & _ & H92 & _) | [(-> & H) | (-> & H)]]].
  - left. intros s4 E. injection E as E _. contradiction.
  - left. intros s4 E. injection E as E _. contradiction.
  - right. exists c, t. repeat split; auto; lia.
  - right. destruct (surrogates_of c (conj H (proj2 Hc))) as (E1 & _ & Hhi & _).
    cbv zeta in E1. rewrite <- app_assoc. eexists _, _. split; [reflexivity|].
    rewrite E1. unfold is_low_surrogate. split; lia.
Qed.

Lemma text_ok_cons (c : Z) (s : pystr) :
  text_ok (c :: s) = true ->
  0 <= c < 1114112 /\ text_ok s = true /\
  (is_high_surrogate c = true ->
   match s with c' :: _ => is_low_surrogate c' = false | [] => True end).
Proof.
  unfold text_ok.
  change (code_points (c :: s)) with ((0 <=? c) && (c <? 1114112) && code_points s).
  change (no_surrogate_pair (c :: s)) with
    (match s with
     | c' :: _ => negb (is_high_surrogate c && is_low_surrogate c')
     | [] => true
     end && no_surrogate_pair s).
  rewrite !andb_true_iff. intros [[Hc Hcs] [Hp Hps]].
  split; [lia|]. split; [now split|].
  intros Hh. destruct s as [|c' s']; [exact I|].
  rewrite Hh in Hp. now destruct (is_low_surrogate c').
Qed.

Lemma scanstring_escaped (s rest : pystr) :
  text_ok s = true ->
  scanstring (flat_map escape_char s ++ 34 :: rest) = Ok (s, rest).
Proof.
  induction s as [|c s IH]; intros Hok.
  - reflexivity.
  - apply text_ok_cons in Hok. destruct Hok as (Hc & Hs & Hpair).
    specialize (IH Hs). cbn [flat_map]. rewrite <- app_assoc.
    set (tail := flat_map escape_char s ++ 34 :: rest) in *.
    destruct (escape_char_cases c Hc)
      as [(e & -> & He & Hb) | [(-> & H34 & H92 & H32) | [(-> & H) | (-> & H)]]].
    + cbn [app]. rewrite (scanstring_backslash e c) by assumption. now rewrite IH.
    + cbn [app]. rewrite scanstring_plain by assumption. now rewrite IH.
    + rewrite scanstring_u; [now rewrite IH | lia |].
      intros Hh. specialize (Hpair Hh). unfold tail.
      destruct s as [|c' s'].
      * left. intros s4 E. discriminate.
      * cbn [flat_map]. rewrite <- app_assoc.
        apply text_ok_cons in Hs. apply not_joined_escape; [tauto | exact Hpair].
    + rewrite <- app_assoc. rewrite scanstring_pair by lia. now rewrite IH.
Qed.

Lemma scanstring_encoded (s rest : pystr) :
  text_ok s = true ->
  exists body, py_encode_basestring_ascii s ++ rest = 34 :: body /\
               scanstring body = Ok (s, rest).
Proof.
  intros H. exists (flat_map escape_char s ++ 34 :: rest). split.
  - unfold py_encode_basestring_ascii. cbn [app]. now rewrite <- app_assoc.
  - now apply scanstring_escaped.
Qed.


(** ** Integers: the number pattern undoes [int.__repr__] *)

Lemma uint_of_digits_digits (u : Decimal.uint) : uint_of_digits (digits u) = u.
Proof. induction u; cbn; now rewrite ?IHu. Qed.

Lemma digits_are_digits (u : Decimal.uint) :
  Forall (fun c => is_digit c = true) (digits u).
Proof. induction u; cbn; constructor; auto. Qed.


Lemma span_digits_app (d rest : pystr) :
  Forall (fun c => is_digit c = true) d -> number_end rest = true ->
  span_digits (d ++ rest) = (d, rest).
Proof.
  intros Hd Hr. induction Hd as [|c d Hc _ IH]; cbn [app span_digits].
  - destruct rest as [|c rest]; [reflexivity|]. cbn [span_digits].
    cbn [number_end] in Hr. now destruct (is_digit c).
  - now rewrite Hc, IH.
Qed.

Lemma to_uint_normal (p : positive) : Decimal.unorm (Pos.to_uint p) = Pos.to_uint p.
Proof.
  rewrite <- (DecimalPos.Unsigned.to_of (Pos.to_uint p)).
  now rewrite DecimalPos.Unsigned.of_to.
Qed.

Lemma digits_to_uint (p : positive) :
  exists c d, digits (Pos.to_uint p) = c :: d /\
              is_digit c = true /\ c <> 48 /\ c <> 45.
Proof.
  pose proof (to_uint_normal p) as Hn.
  pose proof (DecimalPos.Unsigned.to_uint_nonzero p) as Hz.
  pose proof (DecimalPos.Unsigned.to_uint_nonnil p) as Hnil.
  destruct (Pos.to_uint p) as [|u|u|u|u|u|u|u|u|u|u];
    try (cbn [digits]; do 2 eexists; split; [reflexivity|];
         split; [reflexivity|]; split; discriminate).
  - now destruct Hnil.
  - exfalso. rewrite unorm_D0 in Hn.
    destruct (Decimal.uint_eq_dec u Decimal.Nil) as [->|Hu]; [now destruct Hz|].
    pose proof (nb_digits_unorm u Hu) as Hle.
    rewrite Hn in Hle. cbn [Decimal.nb_digits] in Hle. lia.
Qed.

Lemma decimal_cases (n : Z) :
  (n = 0 /\ decimal n = [48]) \/
  (exists c d, decimal n = c :: d /\ is_digit c = true /\ c <> 48 /\ c <> 45 /\
               Forall (fun c => is_digit c = true) d) \/
  (exists c d, decimal n = 45 :: c :: d /\ is_digit c = true /\ c <> 48 /\
               Forall (fun c => is_digit c = true) d).
Proof.
  unfold decimal. destruct n as [|p|p]; cbn [Z.to_int].
  - left. split; reflexivity.
  - right; left. destruct (digits_to_uint p) as (c & d & E & H1 & H2 & H3).
    exists c, d. rewrite E. repeat split; auto.
    pose proof (digits_are_digits (Pos.to_uint p)) as Hall. rewrite E in Hall.
    now inversion Hall.
  - right; right. destruct (digits_to_uint p) as (c & d & E & H1 & H2 & H3).
    exists c, d. rewrite E. repeat split; auto.
    pose proof (digits_are_digits (Pos.to_uint p)) as Hall. rewrite E in Hall.
    now inversion Hall.
Qed.

Lemma int_of_numeral_decimal (n : Z) : int_of_numeral (decimal n) = n.
Proof.
  rewrite <- (DecimalZ.of_to n) at 2.
  unfold decimal. destruct (Z.to_int n) as [u|u] eqn:E.
  - destruct n as [|p|p]; cbn [Z.to_int] in E; try discriminate.
    + injection E as <-. reflexivity.
    + injection E as <-. destruct (digits_to_uint p) as (c & d & Ed & _ & _ & H45).
      unfold int_of_numeral. rewrite Ed. apply Z.eqb_neq in H45. rewrite H45.
      now rewrite <- Ed, uint_of_digits_digits.
  - unfold int_of_numeral. cbn [Z.eqb Pos.eqb]. now rewrite uint_of_digits_digits.
Qed.

(** The digits [int] counts in the numeral of an int are those
    [int.__repr__] counts. *)
Lemma numeral_digits_decimal (n : Z) :
  Z.of_nat (length (numeral_digits (decimal n))) = int_digits n.
Proof.
  unfold decimal, int_digits. destruct (Z.to_int n) as [u|u].
  - pose proof (digits_are_digits u) as Hall.
    destruct (digits u) as [|c d]; [reflexivity|].
    inversion Hall as [|? ? Hc _]; subst. unfold numeral_digits.
    assert (H45 : (c =? 45) = false) by (unfold is_digit in Hc; lia).
    now rewrite H45.
  - reflexivity.
Qed.

Lemma parse_int_decimal (n : Z) :
  int_ok n = true -> parse_int (decimal n) = Some n.
Proof.
  unfold int_ok, parse_int. intros H. rewrite numeral_digits_decimal.
  apply Z.leb_le in H. apply Z.ltb_ge in H. rewrite H.
  now rewrite int_of_numeral_decimal.
Qed.

(** Within the limit [int.__repr__] returns the numeral, over it it
    raises. *)
Lemma intstr_some (n : Z) : int_ok n = true -> intstr n = Some (decimal n).
Proof.
  unfold int_ok, intstr. intros H. apply Z.leb_le in H. apply Z.ltb_ge in H.
  now rewrite H.
Qed.

Lemma intstr_none (n : Z) : int_ok n = false -> intstr n = None.
Proof.
  unfold int_ok, intstr. intros H. apply Z.leb_gt in H. apply Z.ltb_lt in H.
  now rewrite H.
Qed.

Lemma match_integer_decimal (n : Z) (rest : pystr) :
  number_end rest = true ->
  match_integer (decimal n ++ rest) = Some (decimal n, rest).
Proof.
  intros Hr. unfold match_integer.
  destruct (decimal_cases n) as [[_ ->] | [(c & d & -> & Hc & H48 & H45 & Hd)
                                        | (c & d & -> & Hc & H48 & Hd)]].
  - reflexivity.
  - cbn [app]. apply Z.eqb_neq in H45, H48. rewrite H45, H48, Hc.
    now rewrite span_digits_app.
  - cbn [app]. cbn [Z.eqb Pos.eqb]. apply Z.eqb_neq in H48. rewrite H48, Hc.
    now rewrite span_digits_app.
Qed.

Lemma no_frac_no_exp (rest : pystr) :
  number_end rest = true -> match_frac rest = None /\ match_exp rest = None.
Proof.
  destruct rest as [|c rest]; [now split|]. cbn [number_end match_frac match_exp].
  rewrite negb_true_iff, !orb_false_iff. intros [[[_ H1] H2] H3].
  now rewrite H1, H2, H3.
Qed.

Lemma scan_number_decimal (n : Z) (rest : pystr) :
  int_ok n = true ->
  number_end rest = true ->
  scan_number (decimal n ++ rest) = Some (Ok (PInt n, rest)).
Proof.
  intros Hn Hr. unfold scan_number. rewrite match_integer_decimal by exact Hr.
  destruct (no_frac_no_exp rest Hr) as [-> ->]. cbn [app].
  now rewrite parse_int_decimal.
Qed.

(** The first character of a numeral is a minus sign or a digit. *)
Lemma decimal_head (n : Z) :
  exists c d, decimal n = c :: d /\ (c = 45 \/ is_digit c = true).
Proof.
  destruct (decimal_cases n) as [[_ ->] | [(c & d & -> & Hc & _)
                                        | (c & d & -> & _)]].
  - exists 48, []. auto.
  - exists c, d. auto.
  - exists 45, (c :: d). auto.
Qed.


(** ** Values *)

Lemma skip_ws_head (c : Z) (s : pystr) : is_ws c = false -> skip_ws (c :: s) = c :: s.
Proof. intros H. cbn [skip_ws]. now rewrite H. Qed.

Lemma skip_ws_spaces (k : nat) (s : pystr) : skip_ws (repeat 32 k ++ s) = skip_ws s.
Proof. induction k; [reflexivity | exact IHk]. Qed.

Lemma skip_ws_newline_indent (indent level : nat) (c : Z) (s : pystr) :
  is_ws c = false -> skip_ws (newline_indent indent level ++ c :: s) = c :: s.
Proof.
  intros H. unfold newline_indent. cbn [app skip_ws].
  change (is_ws 10) with true. cbv iota.
  rewrite skip_ws_spaces. now apply skip_ws_head.
Qed.

Lemma scan_once_str (f : nat) (s rest : pystr) :
  text_ok s = true ->
  scan_once (S f) (py_encode_basestring_ascii s ++ rest) = Ok (PStr s, rest).
Proof.
  intros H. destruct (scanstring_encoded s rest H) as (body & -> & Hb).
  cbn [scan_once]. cbn [Z.eqb Pos.eqb]. now rewrite Hb.
Qed.

Lemma scan_once_number (f : nat) (c : Z) (s : pystr)
    (res : result (pyval * pystr)) :
  c = 45 \/ is_digit c = true ->
  scan_number (c :: s) = Some res ->
  scan_once (S f) (c :: s) = res.
Proof.
  intros Hc Hn.
  assert (H : (c =? 34) = false /\ (c =? 123) = false /\ (c =? 91) = false /\
              (110 =? c) = false /\ (116 =? c) = false /\ (102 =? c) = false).
  { unfold is_digit in Hc. lia. }
  destruct H as (H1 & H2 & H3 & H4 & H5 & H6).
  cbn [scan_once]. rewrite H1, H2, H3.
  change (startswith (lit "null") (c :: s)) with ((110 =? c) && startswith (lit "ull") s).
  change (startswith (lit "true") (c :: s)) with ((116 =? c) && startswith (lit "rue") s).
  change (startswith (lit "false") (c :: s)) with ((102 =? c) && startswith (lit "alse") s).
  rewrite H4, H5, H6. cbn [andb]. now rewrite Hn.
Qed.

Lemma scan_once_int (f : nat) (n : Z) (rest : pystr) :
  int_ok n = true ->
  number_end rest = true ->
  scan_once (S f) (decimal n ++ rest) = Ok (PInt n, rest).
Proof.
  intros Hok Hr. pose proof (scan_number_decimal n rest Hok Hr) as Hn.
  destruct (decimal_head n) as (c & d & E & Hc). rewrite E in *.
  now apply scan_once_number.
Qed.

Lemma scan_once_bool (f : nat) (b : bool) (rest : pystr) :
  scan_once (S f) ((if b then lit "true" else lit "false") ++ rest)
  = Ok (PBool b, rest).
Proof. destruct b; reflexivity. Qed.

(** ** One item of an object, one element of an array *)


Lemma object_items_last (f : nat) (key venc tail rest : pystr) (v : pyval) :
  text_ok key = true ->
  skip_ws (venc ++ tail) = venc ++ tail ->
  scan_once f (venc ++ tail) = Ok (v, tail) ->
  skip_ws tail = 125 :: rest ->
  object_items (S f) (item key venc tail) = Ok ([(key, v)], rest).
Proof.
  intros Hk Hv Hs Ht. unfold item. cbn [object_items].
  rewrite scanstring_escaped by exact Hk.
  rewrite (skip_ws_head 58) by reflexivity. cbn [Z.eqb Pos.eqb].
  change (skip_ws (32 :: venc ++ tail)) with (skip_ws (venc ++ tail)).
  now rewrite Hv, Hs, Ht.
Qed.

Lemma object_items_more (f : nat) (key venc tail tail2 more rest : pystr)
    (v : pyval) (pairs : list (pystr * pyval)) :
  text_ok key = true ->
  skip_ws (venc ++ tail) = venc ++ tail ->
  scan_once f (venc ++ tail) = Ok (v, tail) ->
  skip_ws tail = 44 :: tail2 ->
  skip_ws tail2 = 34 :: more ->
  object_items f more = Ok (pairs, rest) ->
  object_items (S f) (item key venc tail) = Ok ((key, v) :: pairs, rest).
Proof.
  intros Hk Hv Hs Ht Ht2 Hm. unfold item. cbn [object_items].
  rewrite scanstring_escaped by exact Hk.
  rewrite (skip_ws_head 58) by reflexivity. cbn [Z.eqb Pos.eqb].
  change (skip_ws (32 :: venc ++ tail)) with (skip_ws (venc ++ tail)).
  rewrite Hv, Hs, Ht. cbn [Z.eqb Pos.eqb]. now rewrite Ht2, Hm.
Qed.

Lemma scan_once_object (f : nat) (s1 body rest : pystr)
    (pairs : list (pystr * pyval)) :
  skip_ws s1 = 34 :: body ->
  object_items f body = Ok (pairs, rest) ->
  scan_once (S f) (123 :: s1) = Ok (PDict (dict_of_pairs pairs), rest).
Proof.
  intros Hs Hb. cbn [scan_once]. cbn [Z.eqb Pos.eqb]. now rewrite Hs, Hb.
Qed.

Lemma array_items_last (f : nat) (s tail rest : pystr) (v : pyval) :
  scan_once f s = Ok (v, tail) ->
  skip_ws tail = 93 :: rest ->
  array_items (S f) s = Ok ([v], rest).
Proof. intros Hs Ht. cbn [array_items]. now rewrite Hs, Ht. Qed.

Lemma array_items_more (f : nat) (s tail tail2 rest : pystr) (v : pyval)
    (values : list pyval) :
  scan_once f s = Ok (v, tail) ->
  skip_ws tail = 44 :: tail2 ->
  array_items f (skip_ws tail2) = Ok (values, rest) ->
  array_items (S f) s = Ok (v :: values, rest).
Proof.
  intros Hs Ht Hm. cbn [array_items]. rewrite Hs, Ht.
  cbn [Z.eqb Pos.eqb]. now rewrite Hm.
Qed.

Lemma scan_once_array (f : nat) (s1 : pystr) (c : Z) (s2 rest : pystr)
    (values : list pyval) :
  skip_ws s1 = c :: s2 -> c <> 93 ->
  array_items f (c :: s2) = Ok (values, rest) ->
  scan_once (S f) (91 :: s1) = Ok (PList values, rest).
Proof.
  intros Hs Hc Hb. cbn [scan_once]. cbn [Z.eqb Pos.eqb]. rewrite Hs.
  apply Z.eqb_neq in Hc. now rewrite Hc, Hb.
Qed.


(** ** The chunks of the encoder and the text they make *)

Lemma pyval_nested_ind (P : pyval -> Prop) :
  P PNone -> (forall b, P (PBool b)) -> (forall n, P (PInt n)) ->
  (forall x, P (PFloat x)) -> (forall s, P (PStr s)) ->
  (forall l, Forall P l -> P (PList l)) ->
  (forall d, Forall (fun kv => P (snd kv)) d -> P (PDict d)) ->
  forall o, P o.
Proof.
  intros HN HB HI HF HS HL HD.
  fix IH 1. intros [ | b | n | x | s | l | d].
  - exact HN.
  - apply HB.
  - apply HI.
  - apply HF.
  - apply HS.
  - apply HL.
    revert l. fix IHl 1. intros [|a l]; constructor; [apply IH | apply IHl].
  - apply HD.
    revert d. fix IHd 1. intros [|[k a] d]; constructor; [apply IH | apply IHd].
Qed.

Lemma raises_app (a b : list (option pystr)) :
  raises (a ++ b) = raises a || raises b.
Proof. apply existsb_app. Qed.

Lemma written_app (a b : list (option pystr)) :
  raises a = false -> written (a ++ b) = written a ++ written b.
Proof.
  induction a as [|[t|] a IH]; cbn [raises existsb orb app written]; intros H.
  - reflexivity.
  - fold (raises a) in H. now rewrite IH, app_assoc.
  - discriminate.
Qed.

Lemma written_raised (a b : list (option pystr)) :
  raises a = true -> written (a ++ b) = written a.
Proof.
  induction a as [|[t|] a IH]; cbn [raises existsb orb app written]; intros H.
  - discriminate.
  - fold (raises a) in H. now rewrite IH.
  - reflexivity.
Qed.

Lemma yields_some (t : pystr) : yields [Some t] t.
Proof.
  split; cbn [written]; [intros _; apply app_nil_r|].
  exists []. now rewrite !app_nil_r.
Qed.

Lemma yields_none (t : pystr) : yields [None] t.
Proof. split; [discriminate|]. exists t. reflexivity. Qed.

Lemma yields_app (a b : list (option pystr)) (ta tb : pystr) :
  yields a ta -> yields b tb -> yields (a ++ b) (ta ++ tb).
Proof.
  intros [Ha (ra & Ea)] [Hb (rb & Eb)]. split.
  - rewrite raises_app. intros H. apply orb_false_iff in H. destruct H as [H1 H2].
    rewrite written_app by exact H1. now rewrite Ha, Hb.
  - destruct (raises a) eqn:R.
    + rewrite written_raised by exact R. exists (ra ++ tb).
      rewrite Ea. now rewrite app_assoc.
    + rewrite written_app by exact R. rewrite (Ha eq_refl).
      exists rb. rewrite Eb at 1. now rewrite app_assoc.
Qed.

Lemma yields_buf (buf : pystr) (a : option pystr) (t : pystr) :
  yields [a] t -> yields [option_map (app buf) a] (buf ++ t).
Proof.
  destruct a as [t'|]; cbn [option_map]; [|intros _; apply yields_none].
  intros [H _]. specialize (H eq_refl). cbn [written] in H.
  rewrite app_nil_r in H. subst t'. apply yields_some.
Qed.

Lemma yields_eq (chunks : list (option pystr)) (t t' : pystr) :
  yields chunks t' -> t' = t -> yields chunks t.
Proof. now intros H <-. Qed.

Section Chunks.

Variable floatstr : pystr -> pystr.
Variable indent : nat.

Lemma yields_atom (o : pyval) (a : option pystr) (level : nat) :
  atom floatstr o = Some a -> yields [a] (json_text floatstr indent o level).
Proof.
  destruct o as [ | [|] | n | x | s | l | d]; cbn [atom json_text];
    try (intros [= <-]; apply yields_some); try discriminate.
  intros [= <-]. unfold intstr.
  destruct (max_str_digits <? int_digits n); [apply yields_none | apply yields_some].
Qed.

Lemma atom_iterencode (o : pyval) (a : option pystr) (level : nat) :
  atom floatstr o = Some a -> iterencode floatstr indent o level = [a].
Proof.
  destruct o as [ | [|] | n | x | s | l | d]; cbn [atom iterencode];
    try (intros [= <-]; reflexivity); discriminate.
Qed.

(** The chunks of a value make its text. *)
Lemma yields_iterencode (o : pyval) :
  forall level,
  yields (iterencode floatstr indent o level) (json_text floatstr indent o level).
Proof.
  induction o as [ | b | n | x | s | l IHl | d IHd] using pyval_nested_ind;
    intros level.
  - exact (yields_atom PNone _ level eq_refl).
  - destruct b; [exact (yields_atom (PBool true) _ level eq_refl)
                | exact (yields_atom (PBool false) _ level eq_refl)].
  - exact (yields_atom (PInt n) _ level eq_refl).
  - exact (yields_atom (PFloat x) _ level eq_refl).
  - exact (yields_atom (PStr s) _ level eq_refl).
  - destruct l as [|value lst]; [apply yields_some|].
    cbn [iterencode json_text].
    assert (Helem : forall buf v,
      (forall level, yields (iterencode floatstr indent v level)
                            (json_text floatstr indent v level)) ->
      yields (match atom floatstr v with
              | Some a => [option_map (app buf) a]
              | None => Some buf :: iterencode floatstr indent v (S level)
              end) (buf ++ json_text floatstr indent v (S level))).
    { intros buf v Hv. destruct (atom floatstr v) as [a|] eqn:E.
      - apply yields_buf. now apply yields_atom.
      - apply (yields_app [Some buf]); [apply yields_some | apply Hv]. }
    rewrite (app_assoc [91]), (app_assoc ([91] ++ _)).
    apply yields_app; [apply Helem; exact (Forall_inv IHl)|].
    apply Forall_inv_tail in IHl. apply yields_app.
    + induction lst as [|v lst IH]; [split; [reflexivity | now exists []]|].
      cbn iota beta fix.
      rewrite (app_assoc [44]), (app_assoc ([44] ++ _)).
      apply yields_app; [apply Helem; exact (Forall_inv IHl)|].
      apply IH. exact (Forall_inv_tail IHl).
    + apply (yields_app [Some _] [Some _]); apply yields_some.
  - destruct d as [|[key value] dct]; [apply yields_some|].
    cbn [iterencode json_text].
    assert (Hval : forall v,
      (forall level, yields (iterencode floatstr indent v level)
                            (json_text floatstr indent v level)) ->
      yields (match atom floatstr v with
              | Some a => [a]
              | None => iterencode floatstr indent v (S level)
              end) (json_text floatstr indent v (S level))).
    { intros v Hv. destruct (atom floatstr v) as [a|] eqn:E.
      - now apply yields_atom.
      - apply Hv. }
    apply (yields_app [Some _]); [apply yields_some|].
    apply (yields_app [Some _]); [apply yields_some|].
    apply (yields_app [Some _]); [apply yields_some|].
    apply (yields_app [Some _]); [apply yields_some|].
    apply yields_app; [apply Hval; exact (Forall_inv IHd)|].
    apply Forall_inv_tail in IHd. apply yields_app.
    + induction dct as [|[k v] dct IH]; [split; [reflexivity | now exists []]|].
      cbn iota beta fix.
      rewrite (app_assoc [44]).
      apply (yields_app [Some _]); [apply yields_some|].
      apply (yields_app [Some _]); [apply yields_some|].
      apply (yields_app [Some _]); [apply yields_some|].
      apply yields_app; [apply Hval; exact (Forall_inv IHd)|].
      apply IH. exact (Forall_inv_tail IHd).
    + apply (yields_app [Some _] [Some _]); apply yields_some.
Qed.

End Chunks.

Section RoundTrip.

Variable floatstr : pystr -> pystr.
Variable indent : nat.



Lemma json_text_list (v : pyval) (l : list pyval) (level : nat) :
  json_text floatstr indent (PList (v :: l)) level =
  91 :: newline_indent indent (S level) ++ json_text floatstr indent v (S level) ++ list_tail floatstr indent l (S level) ++
  newline_indent indent level ++ [93].
Proof.
  cbn [json_text app].
  match goal with
  | |- context [?F l ++ newline_indent indent level ++ [93]] =>
      assert (H : forall l', F l' = list_tail floatstr indent l' (S level))
  end.
  { induction l' as [|y l' IH]; [reflexivity|].
    cbn [list_tail app]. now rewrite IH. }
  now rewrite H.
Qed.

(** The text of a book, item by item. *)
Lemma book_text (b : Book.t) (level : nat) (rest : pystr) :
  json_text floatstr indent (book_dict b) level ++ rest =
  123 :: newline_indent indent (S level) ++ 34 ::
  item (lit "title") (py_encode_basestring_ascii (Book.title b))
    (44 :: newline_indent indent (S level) ++ 34 ::
  item (lit "author") (py_encode_basestring_ascii (Book.author b))
    (44 :: newline_indent indent (S level) ++ 34 ::
  item (lit "publication_year") (decimal (Book.publication_year b))
    (44 :: newline_indent indent (S level) ++ 34 ::
  item (lit "genre") (py_encode_basestring_ascii (Book.genre b))
    (44 :: newline_indent indent (S level) ++ 34 ::
  item (lit "read") (if Book.read b then lit "true" else lit "false")
    (newline_indent indent level ++ 125 :: rest))))).
Proof.
  unfold book_dict, item. cbn [json_text].
  replace (match Book.read b with true => lit "true" | false => lit "false" end)
    with (if Book.read b then lit "true" else lit "false") by reflexivity.
  unfold py_encode_basestring_ascii. change (lit ": ") with [58; 32].
  repeat first [rewrite <- app_assoc | progress cbn [app]].
  reflexivity.
Qed.

Lemma book_ok_fields (b : Book.t) :
  book_ok b = true ->
  text_ok (Book.title b) = true /\ text_ok (Book.author b) = true /\
  text_ok (Book.genre b) = true /\ int_ok (Book.publication_year b) = true.
Proof. unfold book_ok. rewrite !andb_true_iff. tauto. Qed.

Lemma skip_ws_encoded (s tail : pystr) :
  skip_ws (py_encode_basestring_ascii s ++ tail) =
  py_encode_basestring_ascii s ++ tail.
Proof. reflexivity. Qed.

Lemma skip_ws_decimal (n : Z) (tail : pystr) :
  skip_ws (decimal n ++ tail) = decimal n ++ tail.
Proof.
  destruct (decimal_head n) as (c & d & -> & Hc). apply skip_ws_head.
  unfold is_ws, is_digit in *. lia.
Qed.

Lemma skip_ws_bool (b : bool) (tail : pystr) :
  skip_ws ((if b then lit "true" else lit "false") ++ tail) =
  (if b then lit "true" else lit "false") ++ tail.
Proof. now destruct b. Qed.

(** [scan_once] reads back the text of a book, whatever follows it. *)
Lemma scan_once_book (f : nat) (b : Book.t) (level : nat) (rest : pystr) :
  book_ok b = true ->
  scan_once (7 + f) (json_text floatstr indent (book_dict b) level ++ rest)
  = Ok (book_dict b, rest).
Proof.
  intros Hb. destruct (book_ok_fields b Hb) as (Ht & Ha & Hg & Hy).
  rewrite book_text. change (7 + f)%nat with (S (S (5 + f))).
  assert (Hcomma : forall t, skip_ws (44 :: t) = 44 :: t) by reflexivity.
  assert (Hnl : forall lv t, skip_ws (newline_indent indent lv ++ 34 :: t) = 34 :: t)
    by (intros; now apply skip_ws_newline_indent).
  eapply (scan_once_object _ _ _ _
            [(lit "title", PStr (Book.title b));
             (lit "author", PStr (Book.author b));
             (lit "publication_year", PInt (Book.publication_year b));
             (lit "genre", PStr (Book.genre b));
             (lit "read", PBool (Book.read b))]).
  - apply Hnl.
  - eapply object_items_more;
      [reflexivity | apply skip_ws_encoded | now apply scan_once_str
      | apply Hcomma | apply Hnl |].
    eapply object_items_more;
      [reflexivity | apply skip_ws_encoded | now apply scan_once_str
      | apply Hcomma | apply Hnl |].
    eapply object_items_more;
      [reflexivity | apply skip_ws_decimal | now apply scan_once_int
      | apply Hcomma | apply Hnl |].
    eapply object_items_more;
      [reflexivity | apply skip_ws_encoded | now apply scan_once_str
      | apply Hcomma | apply Hnl |].
    eapply object_items_last;
      [reflexivity | apply skip_ws_bool | apply scan_once_bool |].
    now apply skip_ws_newline_indent.
Qed.

Lemma book_text_head (b : Book.t) (level : nat) (rest : pystr) :
  exists t, json_text floatstr indent (book_dict b) level ++ rest = 123 :: t.
Proof. rewrite book_text. eexists. reflexivity. Qed.

(** [array_items] reads back the books of a collection. *)
Lemma array_items_books (f : nat) (b : Book.t) (bs : list Book.t) (rest : pystr) :
  forallb book_ok (b :: bs) = true ->
  array_items (length bs + 8 + f)
    (json_text floatstr indent (book_dict b) 1 ++
     list_tail floatstr indent (List.map book_dict bs) 1 ++
     newline_indent indent 0 ++ 93 :: rest)
  = Ok (List.map book_dict (b :: bs), rest).
Proof.
  revert b. induction bs as [|b' bs IH]; intros b Hok;
    cbn [forallb] in Hok; apply andb_true_iff in Hok; destruct Hok as [Hb Hbs].
  - cbn [List.map list_tail app length Nat.add].
    eapply array_items_last; [now apply (scan_once_book f) |].
    now apply skip_ws_newline_indent.
  - cbn [List.map list_tail length]. rewrite <- !app_assoc.
    replace (S (length bs) + 8 + f)%nat with (S (7 + (length bs + 1 + f))) by lia.
    eapply array_items_more;
      [now apply scan_once_book | cbn [app]; reflexivity |].
    rewrite <- ?app_assoc.
    destruct (book_text_head b' 1
                (list_tail floatstr indent (List.map book_dict bs) 1 ++
                 newline_indent indent 0 ++ 93 :: rest)) as (t & Et).
    cbn [List.map] in IH. rewrite Et.
    rewrite skip_ws_newline_indent by reflexivity. rewrite <- Et.
    replace (7 + (length bs + 1 + f))%nat with (length bs + 8 + f)%nat by lia.
    now apply IH.
Qed.

Lemma list_tail_length (l : list pyval) (level : nat) :
  (length l <= length (list_tail floatstr indent l level))%nat.
Proof.
  induction l as [|v l IH]; [apply Nat.le_refl|].
  cbn [list_tail length app]. rewrite !length_app. lia.
Qed.

(** [json_load] reads back the text of a collection. *)
Lemma json_load_text (books : list Book.t) :
  forallb book_ok books = true ->
  json_load (json_text floatstr indent (library_value books) 0)
  = Ok (library_value books).
Proof.
  intros Hok. unfold library_value.
  destruct books as [|b bs]; [reflexivity|].
  cbn [List.map]. rewrite json_text_list.
  set (text := 91 :: _).
  assert (Hlen : (length bs + 4 <= length text)%nat).
  { unfold text. cbn [length]. rewrite !length_app.
    pose proof (list_tail_length (List.map book_dict bs) 1) as H.
    rewrite length_map in H. unfold newline_indent. cbn [length]. lia. }
  unfold json_load. change (startswith [65279] text) with false. cbv iota.
  change (skip_ws text) with text.
  replace (2 * length text + 1)%nat
    with (S (length bs + 8 + (2 * length text - length bs - 8)))%nat by lia.
  unfold text.
  destruct (book_text_head b 1
              (list_tail floatstr indent (List.map book_dict bs) 1 ++
               newline_indent indent 0 ++ [93])) as (t & Et).
  rewrite (scan_once_array _ _ 123 t [] (List.map book_dict (b :: bs)));
    [ reflexivity
    | rewrite Et; apply skip_ws_newline_indent; reflexivity
    | discriminate
    | rewrite <- Et; now apply array_items_books ].
Qed.

(** The generator raises on a book exactly when the year is over the
    limit. *)
Lemma raises_book (b : Book.t) (level : nat) :
  raises (iterencode floatstr indent (book_dict b) level)
  = negb (int_ok (Book.publication_year b)).
Proof.
  unfold book_dict. cbn [iterencode atom app raises existsb orb].
  destruct (int_ok (Book.publication_year b)) eqn:E.
  - rewrite (intstr_some _ E). now destruct (Book.read b).
  - now rewrite (intstr_none _ E).
Qed.

Lemma raises_library (books : list Book.t) (level : nat) :
  raises (iterencode floatstr indent (library_value books) level)
  = negb (forallb (fun b => int_ok (Book.publication_year b)) books).
Proof.
  unfold library_value. destruct books as [|b bs]; [reflexivity|].
  cbn [List.map iterencode forallb].
  change (atom floatstr (book_dict b)) with (@None (option pystr)). cbv iota.
  rewrite raises_app. cbn [raises existsb orb]. fold (raises (iterencode floatstr indent (book_dict b) (S level))).
  rewrite raises_book, negb_andb. f_equal.
  induction bs as [|b' bs IH]; [reflexivity|].
  cbn [List.map forallb]. cbn iota beta fix.
  change (atom floatstr (book_dict b')) with (@None (option pystr)). cbv iota.
  rewrite <- app_assoc, raises_app. cbn [raises existsb orb].
  fold (raises (iterencode floatstr indent (book_dict b') (S level))).
  rewrite raises_book, negb_andb. f_equal. exact IH.
Qed.

Lemma forallb_book_ok_int (books : list Book.t) :
  forallb book_ok books = true ->
  forallb (fun b => int_ok (Book.publication_year b)) books = true.
Proof.
  rewrite !forallb_forall. intros H b Hb. now apply book_ok_fields, H.
Qed.

(** [json.dump] writes the whole text of a collection whose years are
    within the limit, and does not raise. *)
Lemma json_dump_text (books : list Book.t) :
  forallb (fun b => int_ok (Book.publication_year b)) books = true ->
  json_dump floatstr indent (library_value books)
  = json_text floatstr indent (library_value books) 0 /\
  json_dump_raises floatstr indent (library_value books) = false.
Proof.
  intros H. unfold json_dump, json_dump_raises.
  assert (R : raises (iterencode floatstr indent (library_value books) 0) = false)
    by now rewrite raises_library, H.
  split; [|exact R]. now apply yields_iterencode.
Qed.

(** What [json.dump] writes is the beginning of the text, whatever the
    value. *)
Lemma json_dump_prefix (o : pyval) :
  exists rest, json_text floatstr indent o 0 = json_dump floatstr indent o ++ rest.
Proof. apply yields_iterencode. Qed.

(** [json_load] reads back what [json_dump] writes for a collection. *)
Lemma json_load_dump (books : list Book.t) :
  forallb book_ok books = true ->
  json_load (json_dump floatstr indent (library_value books))
  = Ok (library_value books).
Proof.
  intros Hok.
  destruct (json_dump_text books (forallb_book_ok_int books Hok)) as [-> _].
  now apply json_load_text.
Qed.

End RoundTrip.


(** ** The decoder never runs out of fuel *)

Lemma skip_ws_length (s : pystr) : (length (skip_ws s) <= length s)%nat.
Proof.
  induction s as [|c s IH]; [apply Nat.le_refl|].
  cbn [skip_ws]. destruct (is_ws c); cbn [length]; lia.
Qed.

Lemma skip_ws_cons_length (s s' : pystr) (c : Z) :
  skip_ws s = c :: s' -> (S (length s') <= length s)%nat.
Proof.
  intros H. pose proof (skip_ws_length s) as Hl. rewrite H in Hl. exact Hl.
Qed.

Lemma prepend_Ok (c : Z) (r : result (pystr * pystr)) (k rest : pystr) :
  prepend c r = Ok (k, rest) -> exists k', r = Ok (k', rest).
Proof.
  destruct r as [[k' rest']| |]; cbn; intros H; try discriminate.
  injection H as _ ->. now exists k'.
Qed.

Lemma prepend_fuel (c : Z) (r : result (pystr * pystr)) :
  prepend c r = OutOfFuel -> r = OutOfFuel.
Proof. destruct r as [[k' rest']| |]; cbn; intros H; try discriminate; auto. Qed.

Ltac split_match H :=
  match type of H with
  | context [match ?x with _ => _ end] => destruct x eqn:?; try discriminate H
  end.

Lemma scanstring_consumes (n : nat) :
  forall s, (length s <= n)%nat ->
    scanstring s <> OutOfFuel /\
    forall k rest, scanstring s = Ok (k, rest) -> (length rest < length s)%nat.
Proof.
  induction n as [|n IH]; intros s Hn.
  - destruct s; [|cbn in Hn; lia]. split; [discriminate|]. intros k rest H. discriminate.
  - assert (Hrec : forall c s', (length s' <= n)%nat ->
              (prepend c (scanstring s') <> OutOfFuel) /\
              forall k rest, prepend c (scanstring s') = Ok (k, rest) ->
                             (length rest < length s')%nat).
    { intros c s' Hs'. destruct (IH s' Hs') as [H1 H2]. split.
      - intros E. now apply prepend_fuel in E.
      - intros k rest E. apply prepend_Ok in E. destruct E as [k' E]. eauto. }
    split.
    + intros H. destruct s as [|c s1]; [discriminate|]. cbn [scanstring length] in *.
      repeat split_match H;
        match type of H with
        | prepend _ (scanstring ?s') = _ => apply (Hrec _ s') in H; [exact H | cbn [length] in *; lia]
        end.
    + intros k rest H. destruct s as [|c s1]; [discriminate|]. cbn [scanstring length] in *.
      repeat split_match H;
        try (injection H as _ <-; cbn [length]; lia);
        match type of H with
        | prepend _ (scanstring ?s') = _ =>
            apply (Hrec _ s') in H; [cbn [length] in *; lia | cbn [length] in *; lia]
        end.
Qed.

Lemma scanstring_fuel (s : pystr) : scanstring s <> OutOfFuel.
Proof. apply (scanstring_consumes (length s)), Nat.le_refl. Qed.

Lemma scanstring_shorter (s k rest : pystr) :
  scanstring s = Ok (k, rest) -> (length rest < length s)%nat.
Proof. apply (scanstring_consumes (length s)), Nat.le_refl. Qed.

Lemma span_digits_length (s d r : pystr) :
  span_digits s = (d, r) -> (length r <= length s)%nat.
Proof.
  revert d r. induction s as [|c s IH]; intros d r H; cbn [span_digits] in H.
  - injection H as _ <-. apply Nat.le_refl.
  - destruct (is_digit c).
    + destruct (span_digits s) as [d' r'] eqn:E. injection H as _ <-.
      specialize (IH _ _ eq_refl). cbn [length]. lia.
    + injection H as _ <-. apply Nat.le_refl.
Qed.

Lemma match_integer_shorter (s i r : pystr) :
  match_integer s = Some (i, r) -> (length r < length s)%nat.
Proof.
  unfold match_integer. intros H.
  destruct s as [|c s']; [discriminate|].
  destruct (c =? 45).
  - destruct s' as [|c' s'']; [discriminate|].
    destruct (c' =? 48); [injection H as _ <-; cbn [length]; lia|].
    destruct (is_digit c'); [|discriminate].
    destruct (span_digits s'') as [d r'] eqn:E. injection H as _ <-.
    apply span_digits_length in E. cbn [length]. lia.
  - destruct (c =? 48); [injection H as _ <-; cbn [length]; lia|].
    destruct (is_digit c); [|discriminate].
    destruct (span_digits s') as [d r'] eqn:E. injection H as _ <-.
    apply span_digits_length in E. cbn [length]. lia.
Qed.

Lemma match_frac_shorter (s f r : pystr) :
  match_frac s = Some (f, r) -> (length r <= length s)%nat.
Proof.
  unfold match_frac. intros H. destruct s as [|c s']; [discriminate|].
  destruct (c =? 46); [|discriminate].
  destruct (span_digits s') as [d r'] eqn:E. apply span_digits_length in E.
  destruct d; [discriminate|]. injection H as _ <-. cbn [length]. lia.
Qed.

Lemma match_exp_shorter (s e r : pystr) :
  match_exp s = Some (e, r) -> (length r <= length s)%nat.
Proof.
  unfold match_exp. intros H. destruct s as [|c s']; [discriminate|].
  destruct ((c =? 101) || (c =? 69)); [|discriminate].
  destruct s' as [|c' s''].
  - cbn in H. discriminate.
  - destruct ((c' =? 45) || (c' =? 43)).
    + destruct (span_digits s'') as [d r'] eqn:E. apply span_digits_length in E.
      destruct d; [discriminate|]. injection H as _ <-. cbn [length]. lia.
    + destruct (span_digits (c' :: s'')) as [d r'] eqn:E. apply span_digits_length in E.
      destruct d; [discriminate|]. injection H as _ <-. cbn [length] in *. lia.
Qed.

Lemma scan_number_shorter (s : pystr) (v : pyval) (r : pystr) :
  scan_number s = Some (Ok (v, r)) -> (length r < length s)%nat.
Proof.
  unfold scan_number. intros H.
  destruct (match_integer s) as [[i s1]|] eqn:Ei; [|discriminate].
  apply match_integer_shorter in Ei.
  assert (Hf : forall f s2, match match_frac s1 with
                            | Some (f, r) => (f, r) | None => ([], s1) end = (f, s2) ->
                            (length s2 <= length s1)%nat).
  { intros f s2 E. destruct (match_frac s1) as [[f' r']|] eqn:Ef.
    - injection E as _ <-. now apply match_frac_shorter in Ef.
    - injection E as _ <-. apply Nat.le_refl. }
  destruct (match match_frac s1 with Some (f, r) => (f, r) | None => ([], s1) end)
    as [f s2] eqn:Ef. specialize (Hf _ _ eq_refl).
  assert (He : forall e s3, match match_exp s2 with
                            | Some (e, r) => (e, r) | None => ([], s2) end = (e, s3) ->
                            (length s3 <= length s2)%nat).
  { intros e s3 E. destruct (match_exp s2) as [[e' r']|] eqn:Ee.
    - injection E as _ <-. now apply match_exp_shorter in Ee.
    - injection E as _ <-. apply Nat.le_refl. }
  destruct (match match_exp s2 with Some (e, r) => (e, r) | None => ([], s2) end)
    as [e s3] eqn:Ee. specialize (He _ _ eq_refl).
  destruct (f ++ e); [destruct (parse_int i); [|discriminate]|];
    injection H as _ <-; lia.
Qed.

Lemma scan_number_fuel (s : pystr) : scan_number s <> Some OutOfFuel.
Proof.
  unfold scan_number. destruct (match_integer s) as [[i s1]|]; [|discriminate].
  destruct (match match_frac s1 with Some (f, r) => (f, r) | None => ([], s1) end)
    as [f s2].
  destruct (match match_exp s2 with Some (e, r) => (e, r) | None => ([], s2) end)
    as [e s3].
  destruct (f ++ e); [destruct (parse_int i)|]; discriminate.
Qed.

Ltac lengths :=
  repeat match goal with
  | H : skip_ws _ = _ :: _ |- _ => apply skip_ws_cons_length in H
  | H : scanstring _ = Ok _ |- _ => apply scanstring_shorter in H
  | H : scan_number _ = Some _ |- _ => apply scan_number_shorter in H
  end.

(** Whatever the fuel, a successful scan consumes input. *)
Lemma scan_consumes (f : nat) :
  (forall s v r, scan_once f s = Ok (v, r) -> (length r < length s)%nat) /\
  (forall s vs r, array_items f s = Ok (vs, r) -> (length r < length s)%nat) /\
  (forall s ps r, object_items f s = Ok (ps, r) -> (length r < length s)%nat).
Proof.
  induction f as [|f (IHs & IHa & IHo)].
  - repeat split; intros; discriminate.
  - repeat split.
    + intros s v r H. cbn [scan_once] in H.
      destruct s as [|c s1]; [discriminate|].
      repeat split_match H;
        try (match type of H with ?x = _ => is_var x; subst x end);
        try (inversion H; subst; clear H);
        repeat match goal with
        | E : object_items f _ = Ok _ |- _ => apply IHo in E
        | E : array_items f _ = Ok _ |- _ => apply IHa in E
        end; lengths;
        try (pose proof (length_skipn 2 s1); pose proof (length_skipn 3 s1);
             pose proof (length_skipn 4 s1); pose proof (length_skipn 7 s1);
             pose proof (length_skipn 8 s1));
        cbn [length skipn] in *; lia.
    + intros s vs r H. cbn [array_items] in H.
      repeat split_match H;
        try (inversion H; subst; clear H);
        repeat match goal with
        | E : scan_once f _ = Ok _ |- _ => apply IHs in E
        | E : array_items f _ = Ok _ |- _ => apply IHa in E
        end;
        repeat match goal with
        | |- context [skip_ws ?x] => pose proof (skip_ws_length x); fail
        | E : context [skip_ws ?x] |- _ =>
            lazymatch goal with
            | _ : (length (skip_ws x) <= length x)%nat |- _ => fail
            | _ => pose proof (skip_ws_length x)
            end
        end; lengths; cbn [length] in *; lia.
    + intros s ps r H. cbn [object_items] in H.
      repeat split_match H;
        try (inversion H; subst; clear H);
        repeat match goal with
        | E : scan_once f _ = Ok _ |- _ => apply IHs in E
        | E : object_items f _ = Ok _ |- _ => apply IHo in E
        end;
        repeat match goal with
        | E : context [skip_ws ?x] |- _ =>
            lazymatch goal with
            | _ : (length (skip_ws x) <= length x)%nat |- _ => fail
            | _ => pose proof (skip_ws_length x)
            end
        end; lengths; cbn [length] in *; lia.
Qed.

Ltac consumed f :=
  repeat match goal with
  | E : scan_once f _ = Ok _ |- _ => apply (proj1 (scan_consumes f)) in E
  | E : array_items f _ = Ok _ |- _ => apply (proj1 (proj2 (scan_consumes f))) in E
  | E : object_items f _ = Ok _ |- _ => apply (proj2 (proj2 (scan_consumes f))) in E
  end.

Ltac skipped :=
  repeat match goal with
  | |- context [length (skip_ws ?x)] =>
      lazymatch goal with
      | _ : (length (skip_ws x) <= length x)%nat |- _ => fail
      | _ => pose proof (skip_ws_length x)
      end
  | E : context [length (skip_ws ?x)] |- _ =>
      lazymatch goal with
      | _ : (length (skip_ws x) <= length x)%nat |- _ => fail
      | _ => pose proof (skip_ws_length x)
      end
  end.

(** Two units of fuel per character are enough. *)
Lemma scan_fuel (f : nat) :
  (forall s, (2 * length s + 1 <= f)%nat -> scan_once f s <> OutOfFuel) /\
  (forall s, (2 * length s + 2 <= f)%nat -> array_items f s <> OutOfFuel) /\
  (forall s, (2 * length s + 2 <= f)%nat -> object_items f s <> OutOfFuel).
Proof.
  induction f as [|f (IHs & IHa & IHo)].
  - repeat split; intros s Hf; lia.
  - repeat split.
    + intros s Hf H. cbn [scan_once] in H.
      destruct s as [|c s1]; [discriminate|].
      repeat split_match H;
        match goal with
        | E : scanstring _ = OutOfFuel |- _ => now apply scanstring_fuel in E
        | E : object_items f _ = OutOfFuel |- _ =>
            apply IHo in E; [exact E | lengths; cbn [length] in *; lia]
        | E : array_items f _ = OutOfFuel |- _ =>
            apply IHa in E; [exact E | lengths; cbn [length] in *; lia]
        | E : scan_number _ = Some ?x |- _ =>
            subst x; now apply scan_number_fuel in E
        end.
    + intros s Hf H. cbn [array_items] in H.
      repeat split_match H;
        match goal with
        | E : scan_once f _ = OutOfFuel |- _ => apply IHs in E; [exact E | lia]
        | E : array_items f _ = OutOfFuel |- _ =>
            apply IHa in E; [exact E | consumed f; skipped; lengths; cbn [length] in *; lia]
        end.
    + intros s Hf H. cbn [object_items] in H.
      repeat split_match H;
        match goal with
        | E : scanstring _ = OutOfFuel |- _ => now apply scanstring_fuel in E
        | E : scan_once f _ = OutOfFuel |- _ =>
            apply IHs in E; [exact E | skipped; lengths; cbn [length] in *; lia]
        | E : object_items f _ = OutOfFuel |- _ =>
            apply IHo in E; [exact E | consumed f; skipped; lengths; cbn [length] in *; lia]
        end.
Qed.

(** [json_load] always returns a value or a decode error. *)
Lemma json_load_terminates (s : pystr) : json_load s <> OutOfFuel.
Proof.
  unfold json_load. intros H. repeat split_match H.
  match goal with
  | E : scan_once _ _ = OutOfFuel |- _ => apply (proj1 (scan_fuel _)) in E; [exact E|]
  end.
  pose proof (skip_ws_length s). lia.
Qed.

(** * Persistence *)

Lemma book_dict_inj (a b : Book.t) : book_dict a = book_dict b -> a = b.
Proof.
  destruct a, b. unfold book_dict. cbn [Book.title Book.author
    Book.publication_year Book.genre Book.read].
  intros H. injection H as -> -> -> -> ->. reflexivity.
Qed.

(** Equal values come from equal collections, record by record. *)
Lemma library_value_inj (a b : list Book.t) :
  library_value a = library_value b -> a = b.
Proof.
  unfold library_value. intros H. injection H as H. revert b H.
  induction a as [|x a IH]; intros [|y b] H; try discriminate; [reflexivity|].
  cbn [List.map] in H.
  pose proof (f_equal (fun l => hd PNone l) H) as Hx.
  pose proof (f_equal (@tl pyval) H) as Hab. cbn [hd tl] in Hx, Hab.
  f_equal; [now apply book_dict_inj | now apply IH].
Qed.

(** [save_library] in one step: the file takes what [json.dump] writes, and
    the call ends as [json.dump] does. *)
Lemma save_library_run (floatstr : pystr -> pystr) (library : loc) (w : world) :
  save_library floatstr library w
  = (if json_dump_raises floatstr 4 (library_value (heap w library))
     then Raised ValueError else Returned tt,
     mkWorld (heap w) (ui w)
       (Some (json_dump floatstr 4 (library_value (heap w library))))).
Proof.
  unfold save_library, bind, list_get, write_file, ret. cbn [fst snd heap ui].
  now destruct (json_dump_raises floatstr 4 (library_value (heap w library))).
Qed.

(** C1, as the code has it. [save_library] returns, leaving the collection
    as it is, and [load_library] then returns the saved collection, every
    record with its five fields and in the saved order, changing and
    reporting nothing, provided no text field holds a high surrogate
    directly followed by a low surrogate and no year has more than 4300
    digits. *)
Theorem save_then_load_roundtrip (floatstr : pystr -> pystr) (w : world)
    (library : loc) :
  forallb book_ok (heap w library) = true ->
  let w1 := exec (save_library floatstr library) w in
  eval (save_library floatstr library) w = Returned tt /\
  heap w1 library = heap w library /\
  load_library w1 = (Returned (library_value (heap w library)), w1).
Proof.
  intros Hok. cbv zeta. unfold eval, exec. rewrite save_library_run.
  destruct (json_dump_text floatstr 4 _ (forallb_book_ok_int _ Hok)) as [_ ->].
  cbn [fst snd heap]. split; [reflexivity|]. split; [reflexivity|].
  unfold load_library, bind, read_file. cbn [fst snd data_file].
  now rewrite json_load_dump.
Qed.

Lemma save_then_load_roundtrip_witness :
  let w := shelf [titled "Dune" "Herbert"; unicode_book] in
  forallb book_ok (heap w 0%nat) = true /\
  eval (save_library (fun x => x) 0%nat) w = Returned tt /\
  eval load_library (exec (save_library (fun x => x) 0%nat) w)
  = Returned (library_value [titled "Dune" "Herbert"; unicode_book]).
Proof.
  cbv zeta. split; [reflexivity|].
  destruct (save_then_load_roundtrip (fun x => x)
              (shelf [titled "Dune" "Herbert"; unicode_book]) 0%nat eq_refl)
    as (H1 & _ & H2).
  split; [exact H1|]. unfold eval at 1. rewrite H2. reflexivity.
Defined.

(** On a title made of a high and a low surrogate the collection does not
    come back: the encoder escapes the two separately and the decoder joins
    the pair into one code point, so the loaded title has length one. *)
Lemma surrogate_pair_is_joined :
  let w := shelf [surrogate_book] in
  let w1 := exec (save_library (fun x => x) 0%nat) w in
  eval load_library w1 = Returned (library_value [joined_book]) /\
  eval load_library w1 <> Returned (library_value (heap w 0%nat)).
Proof.
  cbv zeta.
  assert (H : eval load_library
                (exec (save_library (fun x => x) 0%nat) (shelf [surrogate_book]))
              = Returned (library_value [joined_book])) by (vm_compute; reflexivity).
  split; [exact H|]. rewrite H. intros E.
  apply (f_equal (fun o => match o with
                           | Returned v => v
                           | Raised _ => PNone
                           end)) in E.
  apply library_value_inj in E. discriminate E.
Qed.

(** On a year of 4301 digits [json.dump] raises [ValueError] at the year
    and [save_library] with it, the file is left cut off before the year,
    and the next [load_library] finds no JSON in it, reports the error and
    returns the empty list. *)
Lemma save_library_raises_over_limit :
  let w := shelf [long_year_book] in
  let w1 := exec (save_library (fun x => x) 0%nat) w in
  eval (save_library (fun x => x) 0%nat) w = Raised ValueError /\
  heap w1 0%nat = [long_year_book] /\
  load_library w1
  = (Returned (PList []),
     mkWorld (heap w1) [Error decode_error_text] (data_file w1)).
Proof.
  cbv zeta. unfold eval, exec. rewrite save_library_run.
  change (heap (shelf [long_year_book]) 0%nat) with [long_year_book].
  assert (R : json_dump_raises (fun x => x) 4 (library_value [long_year_book])
              = true) by (vm_compute; reflexivity).
  assert (E : json_load
                (json_dump (fun x => x) 4 (library_value [long_year_book]))
              = Raise JSONDecodeError) by (vm_compute; reflexivity).
  rewrite R. cbn [fst snd heap data_file].
  split; [reflexivity|]. split; [reflexivity|].
  unfold load_library, bind, read_file. cbn [fst snd data_file].
  rewrite E. reflexivity.
Qed.

(** C1 as stated fails at two collections of the stated field types. With
    a year of 4301 digits [save_library] raises and what [load_library]
    then returns is the empty list; with a title made of a high and a low
    surrogate both return, and the loaded title is another one. *)
Lemma save_then_load_fails :
  (let w := shelf [long_year_book] in
   let w1 := exec (save_library (fun x => x) 0%nat) w in
   eval (save_library (fun x => x) 0%nat) w = Raised ValueError /\
   eval load_library w1 = Returned (PList []) /\
   eval load_library w1 <> Returned (library_value (heap w 0%nat))) /\
  (let w := shelf [surrogate_book] in
   let w1 := exec (save_library (fun x => x) 0%nat) w in
   eval load_library w1 = Returned (library_value [joined_book]) /\
   eval load_library w1 <> Returned (library_value (heap w 0%nat))).
Proof.
  split; [|exact surrogate_pair_is_joined].
  destruct save_library_raises_over_limit as (H1 & _ & H2). cbv zeta in *.
  unfold eval at 2 3. rewrite H2. cbn [fst].
  split; [exact H1|]. split; [reflexivity | discriminate].
Qed.

(** C6, at the files where the code leaves its contract. A file that holds
    the text 42 is JSON but no sequence of book records: [load_library]
    reports nothing and returns the int 42, which is no list and no
    collection. *)
Theorem load_library_returns_any_json :
  load_library (with_file "42") = (Returned (PInt 42), with_file "42") /\
  ui (exec load_library (with_file "42")) = [] /\
  PInt 42 <> PList [] /\
  (forall books, PInt 42 <> library_value books).
Proof.
  repeat split; try reflexivity; intros; discriminate.
Qed.

(** A file that holds an integer of 4301 digits is not handled either: the
    [ValueError] of the conversion is no [JSONDecodeError] and leaves
    [load_library], which reports nothing. *)
Lemma load_library_raises_on_long_integer :
  load_library long_integer_file = (Raised ValueError, long_integer_file).
Proof.
  assert (E : json_load (repeat 57 4301) = Raise ValueError)
    by (vm_compute; reflexivity).
  unfold load_library, long_integer_file, bind, read_file.
  cbn [fst snd data_file]. rewrite E. reflexivity.
Qed.

(** * Beyond the claims: composition, edges and the script *)


(** * How the catalogue operations compose *)

Lemma substring_refl (s : pystr) : substring s s.
Proof. exists [], []. now rewrite app_nil_r. Qed.

Lemma filter_comm {A} (f g : A -> bool) (l : list A) :
  filter f (filter g l) = filter g (filter f l).
Proof.
  induction l as [|a l IH]; [reflexivity|]. cbn [filter].
  destruct (f a) eqn:Ef, (g a) eqn:Eg; cbn [filter];
    rewrite ?Ef, ?Eg, IH; reflexivity.
Qed.

Lemma add_book_heap (w : world) (library : loc) (t a : pystr) (y : Z)
    (g : pystr) (r : bool) :
  heap (exec (add_book library t a y g r) w) library
  = heap w library ++ [Book.mk t a y g r].
Proof. unfold exec, add_book, bind, list_get. cbn. now rewrite Nat.eqb_refl. Qed.

Lemma add_book_ui (w : world) (library : loc) (t a : pystr) (y : Z)
    (g : pystr) (r : bool) :
  ui (exec (add_book library t a y g r) w) = ui w ++ [Success (added_text t)].
Proof. reflexivity. Qed.

Lemma search_books_eval (lower : pystr -> pystr) (w : world) (library : loc)
    (keyword : pystr) :
  eval (search_books lower library keyword) w =
  filter (fun book =>
            contains (lower keyword) (lower (Book.title book)) ||
            contains (lower keyword) (lower (Book.author book)))
         (heap w library).
Proof. reflexivity. Qed.

Section Composition.

Variable lower : pystr -> pystr.

Lemma keep_same (t : pystr) (book : Book.t) :
  lower (Book.title book) = lower t -> keep lower t book = false.
Proof.
  intros H. unfold keep. apply negb_false_iff. now apply pystr_eqb_eq.
Qed.

(** X1. Removing the title that was just added takes the new record out
    again, together with every older record of that title: the list is what
    removing the title from the original list leaves, and the removal always
    signals "removed". *)
Theorem add_then_remove (w : world) (library : loc) (t a : pystr) (y : Z)
    (g : pystr) (r : bool) :
  let w1 := exec (add_book library t a y g r) w in
  let w2 := exec (remove_book lower library t) w1 in
  heap w2 library = heap (exec (remove_book lower library t) w) library /\
  ui w2 = ui w ++ [Success (added_text t); Success (removed_text t)].
Proof.
  cbv zeta. rewrite !remove_book_heap, remove_book_ui, add_book_heap, add_book_ui.
  rewrite filter_app. cbn [filter].
  rewrite (keep_same t (Book.mk t a y g r)) by reflexivity.
  rewrite app_nil_r. split; [reflexivity|].
  rewrite <- app_assoc. cbn [app]. do 2 f_equal.
  pose proof (filter_length_le (keep lower t) (heap w library)) as Hle.
  rewrite length_app. cbn [length].
  destruct (Nat.ltb_spec (length (filter (keep lower t) (heap w library)))
                         (length (heap w library) + 1)); [reflexivity | lia].
Qed.

Lemma finds_own (w : world) (library : loc) (keyword : pystr) (book : Book.t) :
  In book (heap w library) ->
  lower keyword = lower (Book.title book) \/
  lower keyword = lower (Book.author book) ->
  In book (eval (search_books lower library keyword) w).
Proof.
  intros Hin Hk. rewrite search_books_eval. apply filter_In. split; [exact Hin|].
  apply orb_true_iff. rewrite !contains_spec.
  destruct Hk as [-> | ->]; [left | right]; apply substring_refl.
Qed.

(** X2. Every record of the collection is found by its own title and by its
    own author, in any spelling that lowercases to the same string. *)
Theorem search_books_finds_own (w : world) (library : loc) (keyword : pystr)
    (book : Book.t) :
  In book (heap w library) ->
  lower keyword = lower (Book.title book) \/
  lower keyword = lower (Book.author book) ->
  In book (eval (search_books lower library keyword) w).
Proof. apply finds_own. Qed.

(** X3. After [add_book], a search for the new title returns what it
    returned before, followed by the new record. *)
Theorem add_then_search (w : world) (library : loc) (t a : pystr) (y : Z)
    (g : pystr) (r : bool) :
  let w1 := exec (add_book library t a y g r) w in
  eval (search_books lower library t) w1
  = eval (search_books lower library t) w ++ [Book.mk t a y g r].
Proof.
  cbv zeta. rewrite !search_books_eval, add_book_heap, filter_app.
  f_equal. cbn [filter Book.title Book.author].
  assert (contains (lower t) (lower t) = true) as ->
    by (apply contains_spec, substring_refl).
  reflexivity.
Qed.

(** X4. Whatever [remove_book] deletes for a title, [search_books] returns
    for the same string as keyword: removal is by equality, search by
    containment. *)
Theorem removed_are_found (w : world) (library : loc) (t : pystr) (book : Book.t) :
  In book (heap w library) ->
  ~ In book (heap (exec (remove_book lower library t) w) library) ->
  In book (eval (search_books lower library t) w).
Proof.
  intros Hin Hout. rewrite remove_book_heap in Hout.
  apply (finds_own w library t book Hin). left.
  destruct (pystr_eq_dec (lower (Book.title book)) (lower t)) as [E|E]; [now symmetry|].
  exfalso. apply Hout. apply filter_In. split; [exact Hin|].
  apply keep_spec. exact E.
Qed.

(** X5. Two removals commute: whichever title goes first, every list object
    ends the same. *)
Theorem remove_book_commutes (w : world) (library : loc) (t1 t2 : pystr) :
  forall l,
    heap (exec (remove_book lower library t2)
               (exec (remove_book lower library t1) w)) l
    = heap (exec (remove_book lower library t1)
                 (exec (remove_book lower library t2) w)) l.
Proof.
  intros l. destruct (Nat.eq_dec l library) as [->|Hl].
  - rewrite !remove_book_heap. apply filter_comm.
  - rewrite !(proj1 (remove_book_frame lower _ library _) l Hl). reflexivity.
Qed.

End Composition.


Section RoundingOrder.

Local Open Scope Q_scope.

Lemma Qlog2_upper (x : Q) : 0 < x -> x < 2 ^ (Qlog2 x + 1).
Proof.
  intros Hx. unfold Qlog2.
  destruct (Qle_bool _ x) eqn:E.
  - clear E. destruct x as [n d]. cbn [Qnum Qden].
    assert (Hn : (0 < n)%Z) by (unfold Qlt in Hx; cbn in Hx; lia).
    destruct (Z.log2_spec n Hn) as [_ Ha].
    destruct (Z.log2_spec (Zpos d) (Pos2Z.is_pos d)) as [Hb _].
    pose proof (Z.log2_nonneg n) as Ha0.
    pose proof (Z.log2_nonneg (Zpos d)) as Hb0.
    set (a := Z.log2 n) in *. set (b := Z.log2 (Zpos d)) in *.
    replace (a - b + 1)%Z with ((a + 1) - b)%Z by lia.
    rewrite Qpower_minus by discriminate.
    rewrite <- (pow2_Z (a + 1)), <- (pow2_Z b) by lia.
    change (Z.succ a) with (a + 1)%Z in Ha.
    destruct (2 ^ b)%Z as [|B|B] eqn:EB; try lia.
    rewrite <- Qmake_Qdiv. unfold Qlt; cbn [Qnum Qden]. nia.
  - apply Qnot_le_lt. intros H. apply Qle_bool_iff in H.
    replace (Z.log2 (Qnum x) - Z.log2 (Z.pos (Qden x)) - 1 + 1)%Z
      with (Z.log2 (Qnum x) - Z.log2 (Z.pos (Qden x)))%Z in H by lia.
    congruence.
Qed.

Lemma pow2_lt_inv (a b : Z) : 2 ^ a < 2 ^ b -> (a < b)%Z.
Proof.
  intros H. destruct (Z_lt_ge_dec a b) as [Hlt|Hge]; [exact Hlt|].
  exfalso. assert (2 ^ b <= 2 ^ a) by (apply pow2_le; lia). lra.
Qed.

(** [Qlog2 x] is the only exponent whose binade holds [x]. *)
Lemma Qlog2_unique (x : Q) (l : Z) :
  0 < x -> 2 ^ l <= x -> x < 2 ^ (l + 1) -> Qlog2 x = l.
Proof.
  intros Hx Hl Hu.
  pose proof (Qlog2_spec x Hx) as Hl'. pose proof (Qlog2_upper x Hx) as Hu'.
  assert (H1 : 2 ^ l < 2 ^ (Qlog2 x + 1)) by lra.
  assert (H2 : 2 ^ Qlog2 x < 2 ^ (l + 1)) by lra.
  apply pow2_lt_inv in H1, H2. lia.
Qed.

Lemma Qlog2_mono (x y : Q) : 0 < x -> x <= y -> (Qlog2 x <= Qlog2 y)%Z.
Proof.
  intros Hx Hxy.
  assert (Hy : 0 < y) by lra.
  pose proof (Qlog2_spec x Hx) as Hl. pose proof (Qlog2_upper y Hy) as Hu.
  assert (H : 2 ^ Qlog2 x < 2 ^ (Qlog2 y + 1)) by lra.
  apply pow2_lt_inv in H. lia.
Qed.

Lemma Qlog2_wd (x y : Q) : 0 < x -> x == y -> Qlog2 x = Qlog2 y.
Proof.
  intros Hx E. assert (Hy : 0 < y) by now rewrite <- E.
  apply Qlog2_unique; [exact Hx | rewrite E; now apply Qlog2_spec
                      | rewrite E; now apply Qlog2_upper].
Qed.

Lemma rne_wd (t t' : Q) : t == t' -> rne t = rne t'.
Proof.
  intros E. unfold rne. rewrite (Qfloor_comp _ _ E).
  assert (Hc : (t - inject_Z (Qfloor t') ?= 1 # 2) = (t' - inject_Z (Qfloor t') ?= 1 # 2))
    by now rewrite E.
  now rewrite Hc.
Qed.

Lemma rne_mono (t t' : Q) : t <= t' -> (rne t <= rne t')%Z.
Proof.
  intros Hle. pose proof (Qfloor_resp_le _ _ Hle) as Hf.
  pose proof (Qfloor_le t) as H1. pose proof (Qlt_floor t) as H2.
  pose proof (Qfloor_le t') as H3. pose proof (Qlt_floor t') as H4.
  unfold rne.
  destruct (Qcompare_spec (t - inject_Z (Qfloor t)) (1 # 2)) as [E|E|E];
  destruct (Qcompare_spec (t' - inject_Z (Qfloor t')) (1 # 2)) as [E'|E'|E'];
    try lia.
  - destruct (Z.eq_dec (Qfloor t) (Qfloor t')) as [Eq|Ne].
    + rewrite Eq. destruct (Z.even (Qfloor t')); lia.
    + destruct (Z.even (Qfloor t)), (Z.even (Qfloor t')); lia.
  - destruct (Z.eq_dec (Qfloor t) (Qfloor t')) as [Eq|Ne].
    + exfalso. rewrite Eq in E. lra.
    + destruct (Z.even (Qfloor t)); lia.
  - destruct (Z.even (Qfloor t)); lia.
  - destruct (Z.even (Qfloor t')); lia.
  - destruct (Z.eq_dec (Qfloor t) (Qfloor t')) as [Eq|Ne].
    + exfalso. rewrite Eq in E. lra.
    + destruct (Z.even (Qfloor t')); lia.
  - destruct (Z.eq_dec (Qfloor t) (Qfloor t')) as [Eq|Ne]; [|lia].
    exfalso. rewrite Eq in E. lra.
Qed.

Lemma ulp_exp_wd (x y : Q) : 0 < x -> x == y -> ulp_exp x = ulp_exp y.
Proof. intros Hx E. unfold ulp_exp. now rewrite (Qlog2_wd x y Hx E). Qed.

Lemma RN_pos_wd (x y : Q) : 0 < x -> x == y -> RN_pos x = RN_pos y.
Proof.
  intros Hx E. unfold RN_pos. rewrite (ulp_exp_wd x y Hx E).
  apply Qred_complete.
  rewrite (rne_wd (x / 2 ^ ulp_exp y) (y / 2 ^ ulp_exp y)) by now rewrite E.
  reflexivity.
Qed.

(** [RN] of equal rationals is the same float, whatever the fractions that
    denote them. *)
Lemma RN_wd (x y : Q) : 0 <= x -> x == y -> RN x = RN y.
Proof.
  intros Hx E. assert (Hy : 0 <= y) by now rewrite <- E.
  destruct (RN_cases x Hx) as [[H0 ->]|[Hp ->]];
  destruct (RN_cases y Hy) as [[H0' ->]|[Hp' ->]].
  - reflexivity.
  - exfalso. rewrite <- E, H0 in Hp'. now apply Qlt_irrefl in Hp'.
  - exfalso. rewrite E, H0' in Hp. now apply Qlt_irrefl in Hp.
  - now apply RN_pos_wd.
Qed.

Lemma RN_pos_mono (x y : Q) : 0 < x -> x <= y -> RN_pos x <= RN_pos y.
Proof.
  intros Hx Hxy. assert (Hy : 0 < y) by lra.
  pose proof (Qlog2_mono x y Hx Hxy) as Hl.
  set (ex := ulp_exp x). set (ey := ulp_exp y).
  assert (Hexy : (ex <= ey)%Z) by (unfold ex, ey, ulp_exp; lia).
  destruct (Z.eq_dec ex ey) as [Eq|Ne].
  - rewrite !RN_pos_eq. fold ex ey. rewrite Eq.
    pose proof (pow2_pos ey) as Hp.
    apply Qmult_le_compat_r; [|now apply Qlt_le_weak].
    rewrite <- Zle_Qle. apply rne_mono.
    apply Qmult_le_compat_r; [exact Hxy|].
    apply Qlt_le_weak, Qinv_lt_0_compat, Hp.
  - assert (Hlt : (ex < ey)%Z) by lia.
    assert (Hey : ey = (Qlog2 y - 52)%Z) by (unfold ex, ey, ulp_exp in *; lia).
    assert (Hlx : (Qlog2 x + 1 <= Qlog2 y)%Z) by (unfold ex, ey, ulp_exp in *; lia).
    assert (HB : inject_Z (2 ^ 52) * 2 ^ ey == 2 ^ Qlog2 y).
    { rewrite pow2_Z by lia. rewrite <- pow2_add. now replace (52 + ey)%Z with (Qlog2 y) by lia. }
    apply Qle_trans with (inject_Z (2 ^ 52) * 2 ^ ey).
    + apply RN_pos_le; [exact Hx | | unfold ey; apply ulp_exp_min | reflexivity].
      rewrite HB. apply Qlt_le_weak.
      apply Qlt_le_trans with (2 ^ (Qlog2 x + 1)); [now apply Qlog2_upper | now apply pow2_le].
    + rewrite (RN_pos_eq y). fold ey. pose proof (pow2_pos ey) as Hp.
      apply Qmult_le_compat_r; [|now apply Qlt_le_weak].
      rewrite <- Zle_Qle. apply rne_ge.
      apply Qle_shift_div_l; [exact Hp|]. rewrite HB. now apply Qlog2_spec.
Qed.

(** Rounding keeps the order. *)
Lemma RN_mono (x y : Q) : 0 <= x -> x <= y -> RN x <= RN y.
Proof.
  intros Hx Hxy. assert (Hy : 0 <= y) by lra.
  destruct (RN_cases x Hx) as [[H0 ->]|[Hp ->]].
  - now apply RN_ge0.
  - destruct (RN_cases y Hy) as [[H0' ->]|[Hp' ->]].
    + exfalso. lra.
    + now apply RN_pos_mono.
Qed.

End RoundingOrder.


(** * More on the statistics *)

Lemma inject_Z_pos (n : Z) : 0 < n -> (0 < inject_Z n)%Q.
Proof. intros H. change 0%Q with (inject_Z 0). now rewrite <- Zlt_Qlt. Qed.

Lemma ratio_nonneg (r n : Z) : 0 <= r -> 0 < n -> (0 <= inject_Z r / inject_Z n)%Q.
Proof.
  intros Hr Hn. apply Qle_shift_div_l; [now apply inject_Z_pos|].
  rewrite Qmult_0_l. change 0%Q with (inject_Z 0). rewrite <- Zle_Qle. lia.
Qed.

(** The percentage as a function of the two counts. *)
Lemma display_statistics_counts (w : world) (library : loc) :
  heap w library <> [] ->
  eval (display_statistics library) w =
  (Z.of_nat (length (heap w library)),
   PyFloat (float_mul
              (int_truediv (Z.of_nat (length (filter Book.read (heap w library))))
                           (Z.of_nat (length (heap w library))))
              (float_of_int 100))).
Proof.
  intros Hne. unfold eval. rewrite display_statistics_eval. cbv zeta. cbn [fst].
  rewrite count_read_length.
  destruct (Z.eqb_spec (Z.of_nat (length (heap w library))) 0) as [E|_]; [|reflexivity].
  destruct (heap w library); [now destruct Hne | cbn [length] in E; lia].
Qed.

Lemma percent_wd (r1 n1 r2 n2 : Z) :
  0 <= r1 -> 0 < n1 -> 0 < n2 -> r1 * n2 = r2 * n1 ->
  float_mul (int_truediv r1 n1) (float_of_int 100)
  = float_mul (int_truediv r2 n2) (float_of_int 100).
Proof.
  intros Hr1 Hn1 Hn2 E. unfold int_truediv.
  rewrite (RN_wd (inject_Z r1 / inject_Z n1) (inject_Z r2 / inject_Z n2));
    [reflexivity | now apply ratio_nonneg |].
  pose proof (inject_Z_pos n1 Hn1). pose proof (inject_Z_pos n2 Hn2).
  assert (E' : (inject_Z r1 * inject_Z n2 == inject_Z r2 * inject_Z n1)%Q)
    by (rewrite <- !inject_Z_mult; now rewrite E).
  assert (X : (inject_Z r1 / inject_Z n1
               == inject_Z r1 * inject_Z n2 / (inject_Z n1 * inject_Z n2))%Q)
    by (field; lra).
  assert (Y : (inject_Z r2 / inject_Z n2
               == inject_Z r2 * inject_Z n1 / (inject_Z n1 * inject_Z n2))%Q)
    by (field; lra).
  rewrite X, Y, E'. reflexivity.
Qed.

Lemma percent_mono (r1 n1 r2 n2 : Z) :
  0 <= r1 -> 0 < n1 -> 0 < n2 -> r1 * n2 <= r2 * n1 ->
  (float_mul (int_truediv r1 n1) (float_of_int 100)
   <= float_mul (int_truediv r2 n2) (float_of_int 100))%Q.
Proof.
  intros Hr1 Hn1 Hn2 Hle. unfold float_mul, int_truediv.
  pose proof (inject_Z_pos n1 Hn1) as H1. pose proof (inject_Z_pos n2 Hn2) as H2.
  assert (Hq : (inject_Z r1 / inject_Z n1 <= inject_Z r2 / inject_Z n2)%Q).
  { apply Qle_shift_div_l; [exact H2|].
    assert (E : (inject_Z r1 / inject_Z n1 * inject_Z n2
                 == inject_Z r1 * inject_Z n2 / inject_Z n1)%Q) by (field; lra).
    rewrite E. apply Qle_shift_div_r; [exact H1|].
    rewrite <- !inject_Z_mult, <- Zle_Qle. exact Hle. }
  pose proof (ratio_nonneg r1 n1 Hr1 Hn1) as H0.
  pose proof (RN_ge0 _ H0) as Hq0.
  pose proof (RN_mono _ _ H0 Hq) as Hqm.
  apply RN_mono.
  - apply Qmult_le_0_compat; [exact Hq0 | discriminate].
  - apply Qmult_le_compat_r; [exact Hqm | discriminate].
Qed.

Lemma filter_all {A} (f : A -> bool) (l : list A) :
  forallb f l = true -> filter f l = l.
Proof.
  induction l as [|a l IH]; [reflexivity|]. cbn [forallb filter].
  intros H. apply andb_true_iff in H. destruct H as [-> H]. now rewrite IH.
Qed.

Lemma filter_none {A} (f : A -> bool) (l : list A) :
  forallb (fun a => negb (f a)) l = true -> filter f l = [].
Proof.
  induction l as [|a l IH]; [reflexivity|]. cbn [forallb filter].
  intros H. apply andb_true_iff in H. destruct H as [Ha H].
  apply negb_true_iff in Ha. now rewrite Ha, IH.
Qed.

Lemma nonempty_length (books : list Book.t) :
  books <> [] -> 0 < Z.of_nat (length books).
Proof. destruct books; [now intros [] | cbn [length]; lia]. Qed.

(** X6. When every record is marked read the percentage is exactly 100.0,
    and when none is it is exactly the float 0.0: the two roundings lose
    nothing at the ends of the range. *)
Theorem display_statistics_all_or_none (w : world) (library : loc) :
  heap w library <> [] ->
  (forallb Book.read (heap w library) = true ->
   snd (eval (display_statistics library) w) = PyFloat 100%Q) /\
  (forallb (fun book => negb (Book.read book)) (heap w library) = true ->
   snd (eval (display_statistics library) w) = PyFloat 0%Q).
Proof.
  intros Hne. rewrite (display_statistics_counts w library Hne). cbn [snd].
  pose proof (nonempty_length _ Hne) as Hn. split; intros H.
  - rewrite (filter_all _ _ H).
    rewrite (percent_wd _ _ 1 1); [vm_compute; reflexivity | lia | lia | lia | lia].
  - rewrite (filter_none _ _ H). cbn [length].
    rewrite (percent_wd _ _ 0 1); [vm_compute; reflexivity | lia | lia | lia | lia].
Qed.

(** X7. The percentage depends on the proportion of read records only: two
    collections with the same proportion get the same float. *)
Theorem display_statistics_same_proportion (w1 w2 : world) (l1 l2 : loc) :
  heap w1 l1 <> [] -> heap w2 l2 <> [] ->
  (length (filter Book.read (heap w1 l1)) * length (heap w2 l2) =
   length (filter Book.read (heap w2 l2)) * length (heap w1 l1))%nat ->
  snd (eval (display_statistics l1) w1) = snd (eval (display_statistics l2) w2).
Proof.
  intros H1 H2 E.
  rewrite (display_statistics_counts w1 l1 H1), (display_statistics_counts w2 l2 H2).
  cbn [snd]. f_equal.
  apply percent_wd; [lia | now apply nonempty_length | now apply nonempty_length | lia].
Qed.

(** X8. A larger proportion of read records never gives a smaller
    percentage: rounding keeps the order. *)
Theorem display_statistics_monotone (w1 w2 : world) (l1 l2 : loc) :
  heap w1 l1 <> [] -> heap w2 l2 <> [] ->
  (length (filter Book.read (heap w1 l1)) * length (heap w2 l2) <=
   length (filter Book.read (heap w2 l2)) * length (heap w1 l1))%nat ->
  exists p1 p2 : float64,
    snd (eval (display_statistics l1) w1) = PyFloat p1 /\
    snd (eval (display_statistics l2) w2) = PyFloat p2 /\
    (p1 <= p2)%Q.
Proof.
  intros H1 H2 E.
  rewrite (display_statistics_counts w1 l1 H1), (display_statistics_counts w2 l2 H2).
  cbn [snd]. do 2 eexists. split; [reflexivity|]. split; [reflexivity|].
  apply percent_mono; [lia | now apply nonempty_length | now apply nonempty_length | lia].
Qed.


(** * More on persistence *)


(** X9. [load_library] changes no list object and never the file; it
    reports nothing, or one error, and then it returns the empty list. *)
Theorem load_library_frame (w : world) :
  let v := eval load_library w in
  let w' := exec load_library w in
  heap w' = heap w /\ data_file w' = data_file w /\
  (ui w' = ui w \/
   (ui w' = ui w ++ [Error decode_error_text] /\ v = Returned (PList []))).
Proof.
  cbv zeta. unfold eval, exec, load_library, bind, read_file.
  destruct (data_file w) as [text|] eqn:Ef; cbn [fst snd].
  - destruct (json_load text) as [library|[|]|]; cbn; rewrite ?Ef; auto.
  - cbn. rewrite Ef. auto.
Qed.

Lemma skip_ws_all (s : pystr) : forallb is_ws s = true -> skip_ws s = [].
Proof.
  induction s as [|c s IH]; [reflexivity|]. cbn [forallb skip_ws].
  intros H. apply andb_true_iff in H. destruct H as [-> H]. now apply IH.
Qed.

Lemma json_load_blank (text : pystr) :
  forallb is_ws text = true -> json_load text = Raise JSONDecodeError.
Proof.
  intros H. unfold json_load. rewrite (skip_ws_all text H).
  assert (startswith [65279] text = false) as ->.
  { destruct text as [|c s]; [reflexivity|]. cbn [forallb] in H.
    apply andb_true_iff in H. destruct H as [Hc _]. cbn [startswith].
    unfold is_ws in Hc. destruct (Z.eqb_spec 65279 c) as [<-|_]; [discriminate | reflexivity]. }
  replace (2 * length text + 1)%nat with (S (2 * length text)) by lia.
  reflexivity.
Qed.

(** X10. A file that is empty or holds white space only is no JSON: the
    error is reported and the empty list returned. *)
Theorem load_library_blank_file (w : world) (text : pystr) :
  data_file w = Some text -> forallb is_ws text = true ->
  load_library w =
  (Returned (PList []),
   mkWorld (heap w) (ui w ++ [Error decode_error_text]) (data_file w)).
Proof.
  intros Hf Hb. destruct w as [h u f]. cbn [data_file heap ui] in *. subst f.
  unfold load_library, bind, read_file. cbn [data_file].
  now rewrite (json_load_blank text Hb).
Qed.

(** ** The file is ASCII *)

Lemma ascii_text_app (a b : pystr) :
  ascii_text (a ++ b) = ascii_text a && ascii_text b.
Proof. apply forallb_app. Qed.

Lemma ascii_text_cons (c : Z) (s : pystr) :
  ascii_text (c :: s) = ((c =? 10) || ((32 <=? c) && (c <=? 126))) && ascii_text s.
Proof. reflexivity. Qed.

Lemma hexdigit_ascii (x : Z) :
  let h := hexdigit (Z.land x 15) in ((32 <=? h) && (h <=? 126)) = true.
Proof.
  cbv zeta. change 15 with (Z.ones 4). rewrite Z.land_ones by lia.
  pose proof (Z.mod_pos_bound x (2 ^ 4) ltac:(lia)) as H. change (2 ^ 4) with 16 in H.
  unfold hexdigit. destruct (Z.ltb_spec (x mod 2 ^ 4) 10); change (2 ^ 4) with 16 in *; lia.
Qed.

Lemma u_escape_ascii (n : Z) : ascii_text (u_escape n) = true.
Proof.
  unfold u_escape, hex4. rewrite !ascii_text_cons.
  rewrite !hexdigit_ascii. rewrite !orb_true_r. reflexivity.
Qed.

Lemma escape_char_ascii (c : Z) : ascii_text (escape_char c) = true.
Proof.
  unfold escape_char.
  repeat match goal with
         | |- context [if ?b then _ else _] => destruct b eqn:?; try reflexivity
         end.
  - rewrite ascii_text_cons. rewrite Heqb6. now rewrite orb_true_r.
  - apply u_escape_ascii.
  - rewrite ascii_text_app, !u_escape_ascii. reflexivity.
Qed.

Lemma encoded_string_ascii (s : pystr) :
  ascii_text (py_encode_basestring_ascii s) = true.
Proof.
  unfold py_encode_basestring_ascii. rewrite ascii_text_cons, ascii_text_app.
  cbn [Z.eqb Z.leb Z.compare Pos.compare Pos.compare_cont orb andb Pos.eqb].
  rewrite andb_true_r.
  induction s as [|c s IH]; [reflexivity|]. cbn [flat_map].
  now rewrite ascii_text_app, escape_char_ascii, IH.
Qed.

Lemma escaped_body_ascii (s : pystr) : ascii_text (flat_map escape_char s) = true.
Proof.
  induction s as [|c s IH]; [reflexivity|]. cbn [flat_map].
  now rewrite ascii_text_app, escape_char_ascii, IH.
Qed.

Lemma digits_ascii (u : Decimal.uint) : ascii_text (digits u) = true.
Proof. induction u; cbn [digits]; rewrite ?ascii_text_cons, ?IHu; reflexivity. Qed.

Lemma decimal_ascii (n : Z) : ascii_text (decimal n) = true.
Proof.
  unfold decimal. destruct (Z.to_int n); rewrite ?ascii_text_cons, digits_ascii; reflexivity.
Qed.

Lemma newline_indent_ascii (indent level : nat) :
  ascii_text (newline_indent indent level) = true.
Proof.
  unfold newline_indent. rewrite ascii_text_cons. cbn [Z.eqb Pos.eqb orb andb].
  induction (indent * level)%nat as [|k IH]; [reflexivity | exact IH].
Qed.

Section Ascii.

Variable floatstr : pystr -> pystr.
Variable indent : nat.

Lemma book_ascii (b : Book.t) (level : nat) :
  ascii_text (json_text floatstr indent (book_dict b) level) = true.
Proof.
  rewrite <- (app_nil_r (json_text _ _ _ _)). rewrite book_text. unfold item.
  repeat first [ rewrite ascii_text_cons | rewrite ascii_text_app ].
  rewrite !escaped_body_ascii, !encoded_string_ascii, !newline_indent_ascii,
    decimal_ascii.
  destruct (Book.read b); reflexivity.
Qed.

Lemma list_tail_ascii (books : list Book.t) (level : nat) :
  ascii_text (list_tail floatstr indent (List.map book_dict books) level) = true.
Proof.
  induction books as [|b books IH]; [reflexivity|].
  cbn [List.map list_tail]. rewrite !ascii_text_app.
  now rewrite newline_indent_ascii, book_ascii, IH.
Qed.

Lemma json_text_ascii (books : list Book.t) :
  ascii_text (json_text floatstr indent (library_value books) 0) = true.
Proof.
  unfold library_value. destruct books as [|b books]; [reflexivity|].
  cbn [List.map]. rewrite json_text_list.
  rewrite ascii_text_cons, !ascii_text_app.
  now rewrite !newline_indent_ascii, book_ascii, list_tail_ascii.
Qed.

(** What [json.dump] writes is the text or its beginning, ASCII either
    way. *)
Lemma json_dump_ascii (books : list Book.t) :
  ascii_text (json_dump floatstr indent (library_value books)) = true.
Proof.
  destruct (json_dump_prefix floatstr indent (library_value books)) as (rest & E).
  pose proof (json_text_ascii books) as H. rewrite E, ascii_text_app in H.
  now apply andb_true_iff in H.
Qed.

End Ascii.

(** X11. Whatever the code points of the titles, authors and genres,
    [save_library] writes a file of line feeds and printable ASCII only:
    everything else is escaped. *)
Theorem save_library_writes_ascii (floatstr : pystr -> pystr) (w : world)
    (library : loc) :
  exists text,
    data_file (exec (save_library floatstr library) w) = Some text /\
    ascii_text text = true.
Proof.
  unfold exec. rewrite save_library_run.
  eexists. split; [reflexivity|]. apply json_dump_ascii.
Qed.

(** X12. The file determines the collection: two collections of well-formed
    text that are saved to the same file text are equal, record by record. *)
Theorem save_library_injective (floatstr : pystr -> pystr) (w1 w2 : world)
    (l1 l2 : loc) :
  forallb book_ok (heap w1 l1) = true -> forallb book_ok (heap w2 l2) = true ->
  data_file (exec (save_library floatstr l1) w1)
  = data_file (exec (save_library floatstr l2) w2) ->
  heap w1 l1 = heap w2 l2.
Proof.
  intros H1 H2 E. unfold exec in E. rewrite !save_library_run in E.
  cbn [snd data_file] in E. injection E as E.
  apply library_value_inj.
  pose proof (json_load_dump floatstr 4 _ H1) as L1.
  pose proof (json_load_dump floatstr 4 _ H2) as L2.
  rewrite E in L1. congruence.
Qed.


(** * The form handlers *)

Lemma truthy_false (s : pystr) : truthy s = false <-> s = [].
Proof. destruct s; split; intros H; try reflexivity; discriminate. Qed.

Lemma truthy_true (s : pystr) : truthy s = true <-> s <> [].
Proof. destruct s; split; intros H; try reflexivity; try discriminate. now destruct H. Qed.

Section HandlerFacts.

Variable lower : pystr -> pystr.
Variable floatstr : pystr -> pystr.

Lemma save_library_exec (w : world) (library : loc) :
  exec (save_library floatstr library) w =
  mkWorld (heap w) (ui w)
          (Some (json_dump floatstr 4 (library_value (heap w library)))).
Proof. unfold exec. now rewrite save_library_run. Qed.

Lemma exec_bind {A B} (m : M A) (k : A -> M B) (w : world) :
  exec (bind m k) w = exec (k (eval m w)) (exec m w).
Proof. unfold exec, eval, bind. now destruct (m w). Qed.

Lemma in_sync_after_save (w : world) (library : loc) :
  in_sync floatstr library (exec (save_library floatstr library) w).
Proof. rewrite save_library_exec. reflexivity. Qed.

Lemma in_sync_alert (w : world) (library : loc) (a : alert) :
  in_sync floatstr library w ->
  in_sync floatstr library (mkWorld (heap w) (ui w ++ [a]) (data_file w)).
Proof. intros H. exact H. Qed.

Lemma on_add_submit_rejected (w : world) (library : loc) (t a : pystr) (y : Z)
    (g : pystr) (r : bool) :
  t = [] \/ a = [] ->
  exec (on_add_submit floatstr library t a y g r) w
  = mkWorld (heap w) (ui w ++ [Error required_text]) (data_file w).
Proof.
  intros H. unfold on_add_submit.
  assert (truthy t && truthy a = false) as ->.
  { destruct H as [-> | ->]; [reflexivity | now rewrite andb_false_r]. }
  reflexivity.
Qed.

Lemma on_add_submit_accepted (w : world) (library : loc) (t a : pystr) (y : Z)
    (g : pystr) (r : bool) :
  t <> [] -> a <> [] ->
  exec (on_add_submit floatstr library t a y g r) w
  = exec (save_library floatstr library) (exec (add_book library t a y g r) w).
Proof.
  intros Ht Ha. unfold on_add_submit.
  apply truthy_true in Ht, Ha. rewrite Ht, Ha. cbn [andb].
  now rewrite exec_bind.
Qed.


Lemma on_remove_click_rejected (w : world) (library : loc) :
  exec (on_remove_click lower floatstr library []) w
  = mkWorld (heap w) (ui w ++ [Error enter_title_text]) (data_file w).
Proof. reflexivity. Qed.

Lemma on_remove_click_accepted (w : world) (library : loc) (t : pystr) :
  t <> [] ->
  exec (on_remove_click lower floatstr library t) w
  = exec (save_library floatstr library) (exec (remove_book lower library t) w).
Proof.
  intros Ht. unfold on_remove_click. apply truthy_true in Ht. rewrite Ht.
  now rewrite exec_bind.
Qed.


Lemma handle_in_sync (w : world) (library : loc) (s : submission) :
  in_sync floatstr library w ->
  in_sync floatstr library (exec (handle lower floatstr library s) w).
Proof.
  intros Hs. destruct s as [t a y g r | t]; cbn [handle].
  - destruct (list_eq_dec Z.eq_dec t []) as [Et|Et];
      [rewrite on_add_submit_rejected by auto; exact Hs|].
    destruct (list_eq_dec Z.eq_dec a []) as [Ea|Ea];
      [rewrite on_add_submit_rejected by auto; exact Hs|].
    rewrite on_add_submit_accepted by assumption. apply in_sync_after_save.
  - destruct (list_eq_dec Z.eq_dec t []) as [->|Et];
      [rewrite on_remove_click_rejected; exact Hs|].
    rewrite on_remove_click_accepted by assumption. apply in_sync_after_save.
Qed.

Lemma session_cons (w : world) (library : loc) (s : submission)
    (l : list submission) :
  exec (session lower floatstr library (s :: l)) w
  = exec (session lower floatstr library l)
         (exec (handle lower floatstr library s) w).
Proof. cbn [session]. now rewrite exec_bind. Qed.

Lemma session_in_sync (library : loc) (l : list submission) :
  forall w, in_sync floatstr library w ->
            in_sync floatstr library (exec (session lower floatstr library l) w).
Proof.
  induction l as [|s l IH]; intros w Hs; [exact Hs|].
  rewrite session_cons. apply IH. now apply handle_in_sync.
Qed.


Lemma in_sync_load (w : world) (library : loc) :
  in_sync floatstr library w -> forallb book_ok (heap w library) = true ->
  load_library w = (Returned (library_value (heap w library)), w).
Proof.
  intros Hs Hok. unfold load_library, bind, read_file. rewrite Hs.
  now rewrite json_load_dump.
Qed.

Lemma handle_heap (w : world) (library : loc) (s : submission) :
  exists books,
    heap (exec (handle lower floatstr library s) w) library = books /\
    forall b, In b books ->
              In b (heap w library) \/
              exists t a y g r, s = AddSubmitted t a y g r /\ t <> [] /\ a <> [] /\
                                b = Book.mk t a y g r.
Proof.
  eexists. split; [reflexivity|]. intros b Hb.
  destruct s as [t a y g r | t]; cbn [handle] in Hb.
  - destruct (list_eq_dec Z.eq_dec t []) as [Et|Et];
      [rewrite on_add_submit_rejected in Hb by auto; now left|].
    destruct (list_eq_dec Z.eq_dec a []) as [Ea|Ea];
      [rewrite on_add_submit_rejected in Hb by auto; now left|].
    rewrite on_add_submit_accepted, save_library_exec in Hb by assumption.
    cbn [heap] in Hb. rewrite add_book_heap in Hb.
    apply in_app_or in Hb. destruct Hb as [Hb | [<- | []]]; [now left|].
    right. exists t, a, y, g, r. auto.
  - destruct (list_eq_dec Z.eq_dec t []) as [->|Et];
      [rewrite on_remove_click_rejected in Hb; now left|].
    rewrite on_remove_click_accepted, save_library_exec in Hb by assumption.
    cbn [heap] in Hb. rewrite remove_book_heap in Hb.
    apply filter_In in Hb. now left.
Qed.

Lemma session_forall (P : Book.t -> bool) (library : loc) (l : list submission) :
  (forall t a y g r, In (AddSubmitted t a y g r) l -> t <> [] -> a <> [] ->
                     P (Book.mk t a y g r) = true) ->
  forall w, forallb P (heap w library) = true ->
            forallb P (heap (exec (session lower floatstr library l) w) library) = true.
Proof.
  induction l as [|s l IH]; intros Hadd w Hw; [exact Hw|].
  rewrite session_cons. apply IH.
  - intros t a y g r Hin. apply Hadd. now right.
  - apply forallb_forall. intros b Hb.
    destruct (handle_heap w library s) as (books & <- & Hbooks).
    destruct (Hbooks b Hb) as [Hold | (t & a & y & g & r & -> & Ht & Ha & ->)].
    + rewrite forallb_forall in Hw. now apply Hw.
    + apply Hadd; [now left | exact Ht | exact Ha].
Qed.

(** X16. Every record the script puts into the list has a title and an
    author: started on such a list, every sequence of submissions ends on
    such a list. *)
Theorem session_keeps_named (w : world) (library : loc) (l : list submission) :
  forallb named (heap w library) = true ->
  forallb named (heap (exec (session lower floatstr library l) w) library) = true.
Proof.
  apply session_forall. intros t a y g r _ Ht Ha.
  unfold named. cbn [Book.title Book.author].
  apply truthy_true in Ht, Ha. now rewrite Ht, Ha.
Qed.

(** X17. What a session leaves in the file restores the list: started with
    the file holding a list of well-formed text and years within the limit
    of the interpreter, after any submissions of such text and years
    [load_library] returns the final list and reports nothing. *)
Theorem session_then_load (w : world) (library : loc) (l : list submission) :
  in_sync floatstr library w ->
  forallb book_ok (heap w library) = true ->
  forallb submission_ok l = true ->
  let w' := exec (session lower floatstr library l) w in
  load_library w' = (Returned (library_value (heap w' library)), w').
Proof.
  intros Hs Hok Hl. cbv zeta. apply in_sync_load.
  - now apply session_in_sync.
  - apply session_forall; [|exact Hok].
    intros t a y g r Hin _ _. rewrite forallb_forall in Hl.
    specialize (Hl _ Hin). cbn [submission_ok] in Hl.
    unfold book_ok.
    cbn [Book.title Book.author Book.genre Book.publication_year]. exact Hl.
Qed.

End HandlerFacts.

(** ** Files edited by hand *)


Lemma skip_ws_prefix (pre : pystr) (c : Z) (s : pystr) :
  forallb is_ws pre = true -> is_ws c = false ->
  skip_ws (pre ++ c :: s) = c :: s.
Proof.
  intros Hp Hc. induction pre as [|a pre IH]; cbn [app].
  - now apply skip_ws_head.
  - cbn [forallb] in Hp. apply andb_true_iff in Hp. destruct Hp as [Ha Hp].
    cbn [skip_ws]. rewrite Ha. now apply IH.
Qed.

Lemma no_bom_prefix (pre : pystr) (c : Z) (s : pystr) :
  forallb is_ws pre = true -> c <> 65279 ->
  startswith [65279] (pre ++ c :: s) = false.
Proof.
  intros Hp Hc. destruct pre as [|a pre]; cbn [app startswith].
  - apply Z.eqb_neq in Hc. rewrite Z.eqb_sym in Hc. now rewrite Hc.
  - cbn [forallb] in Hp. apply andb_true_iff in Hp. destruct Hp as [Ha _].
    unfold is_ws in Ha. destruct (Z.eqb_spec 65279 a) as [<-|_]; [discriminate | reflexivity].
Qed.

Section Padding.

Variable floatstr : pystr -> pystr.
Variable indent : nat.

(** [json_load] reads a collection back from its text with white space
    before and after it, whatever the indent it was written with. *)
Lemma json_load_padded (books : list Book.t) (pre post : pystr) :
  forallb book_ok books = true ->
  forallb is_ws pre = true -> forallb is_ws post = true ->
  json_load (pre ++ json_dump floatstr indent (library_value books) ++ post)
  = Ok (library_value books).
Proof.
  intros Hok Hpre Hpost.
  destruct (json_dump_text floatstr indent books (forallb_book_ok_int _ Hok))
    as [-> _].
  unfold library_value, json_load.
  destruct books as [|b bs].
  - change (json_text floatstr indent (PList (List.map book_dict [])) 0 ++ post)
      with (91 :: 93 :: post).
    rewrite no_bom_prefix by (auto; discriminate).
    rewrite skip_ws_prefix by auto.
    set (L := length (pre ++ 91 :: 93 :: post)).
    replace (2 * L + 1)%nat with (S (2 * L)) by lia.
    change (scan_once (S (2 * L)) (91 :: 93 :: post))
      with (Ok (PList [], post) : result (pyval * pystr)).
    cbv beta iota. now rewrite skip_ws_all.
  - cbn [List.map]. rewrite json_text_list. cbn [app].
    rewrite <- !app_assoc. cbn [app].
    set (body := newline_indent indent 1 ++
                 json_text floatstr indent (book_dict b) 1 ++
                 list_tail floatstr indent (List.map book_dict bs) 1 ++
                 newline_indent indent 0 ++ 93 :: post).
    set (L := length (pre ++ 91 :: body)).
    assert (Hlen : (length bs + 4 <= L)%nat).
    { unfold L. rewrite length_app. cbn [length]. unfold body. rewrite !length_app.
      pose proof (list_tail_length floatstr indent (List.map book_dict bs) 1) as H.
      rewrite length_map in H. unfold newline_indent. cbn [length]. lia. }
    rewrite no_bom_prefix by (auto; discriminate).
    rewrite skip_ws_prefix by auto.
    replace (2 * L + 1)%nat with (S (length bs + 8 + (2 * L - length bs - 8)))%nat
      by lia.
    unfold body.
    destruct (book_text_head floatstr indent b 1
                (list_tail floatstr indent (List.map book_dict bs) 1 ++
                 newline_indent indent 0 ++ 93 :: post)) as (t & Et).
    rewrite (scan_once_array _ _ 123 t post (List.map book_dict (b :: bs)));
      [ cbv beta iota; now rewrite skip_ws_all
      | rewrite Et; apply skip_ws_newline_indent; reflexivity
      | discriminate
      | rewrite <- Et; now apply array_items_books ].
Qed.

End Padding.

(** X18. A file that holds the text of a collection of well-formed text
    and of years within the limit of the interpreter, written with any
    indent and with white space before or after it (the line feed an editor
    adds at the end, say), loads as that collection and reports nothing. *)
Theorem load_library_ignores_padding (floatstr : pystr -> pystr) (indent : nat)
    (w : world) (books : list Book.t) (pre post : pystr) :
  forallb book_ok books = true ->
  forallb is_ws pre = true -> forallb is_ws post = true ->
  data_file w
  = Some (pre ++ json_dump floatstr indent (library_value books) ++ post) ->
  load_library w = (Returned (library_value books), w).
Proof.
  intros Hok Hpre Hpost Hf. unfold load_library, bind, read_file.
  rewrite Hf. now rewrite json_load_padded.
Qed.

(** ** Adding and the statistics *)


(** X19. On a list that is not empty, adding a record marked read never
    lowers the percentage and adding one not marked read never raises it. *)
Theorem add_then_statistics (w : world) (library : loc) (t a : pystr) (y : Z)
    (g : pystr) (r : bool) :
  heap w library <> [] ->
  let w1 := exec (add_book library t a y g r) w in
  exists p p1 : float64,
    snd (eval (display_statistics library) w) = PyFloat p /\
    snd (eval (display_statistics library) w1) = PyFloat p1 /\
    (if r then p <= p1 else p1 <= p)%Q.
Proof.
  intros Hne. cbv zeta.
  assert (Hne1 : heap (exec (add_book library t a y g r) w) library <> [])
    by (rewrite add_book_heap; destruct (heap w library); discriminate).
  rewrite (display_statistics_counts w library Hne),
          (display_statistics_counts _ library Hne1).
  cbn [snd]. do 2 eexists. split; [reflexivity|]. split; [reflexivity|].
  rewrite add_book_heap, filter_app, !length_app. cbn [filter Book.read].
  pose proof (filter_length_le Book.read (heap w library)) as Hle.
  pose proof (nonempty_length _ Hne) as Hn.
  destruct r; cbn [length]; apply percent_mono; nia.
Qed.

(** ** The properties above at sample inputs *)

Lemma search_books_finds_own_witness :
  let w := shelf [titled "Dune" "Herbert"; titled "Emma" "Austen"] in
  In (titled "Dune" "Herbert") (heap w 0%nat) /\
  In (titled "Dune" "Herbert")
     (eval (search_books lower_ascii 0%nat (lit "DUNE")) w).
Proof.
  cbv zeta. split; [left; reflexivity|].
  apply (search_books_finds_own lower_ascii
           (shelf [titled "Dune" "Herbert"; titled "Emma" "Austen"]) 0%nat
           (lit "DUNE") (titled "Dune" "Herbert")).
  - left; reflexivity.
  - left; reflexivity.
Defined.

Lemma removed_are_found_witness :
  let w := shelf [titled "Dune" "Herbert"; titled "Emma" "Austen"] in
  In (titled "Dune" "Herbert") (heap w 0%nat) /\
  In (titled "Dune" "Herbert")
     (eval (search_books lower_ascii 0%nat (lit "dune")) w).
Proof.
  cbv zeta. split; [left; reflexivity|].
  apply (removed_are_found lower_ascii
           (shelf [titled "Dune" "Herbert"; titled "Emma" "Austen"]) 0%nat
           (lit "dune") (titled "Dune" "Herbert")).
  - left; reflexivity.
  - vm_compute. intros [H | []]. discriminate H.
Defined.

Lemma display_statistics_all_or_none_witness :
  snd (eval (display_statistics 0%nat) (shelf [marked true; marked true]))
  = PyFloat 100%Q /\
  snd (eval (display_statistics 0%nat) (shelf [marked false]))
  = PyFloat 0%Q.
Proof.
  split.
  - apply (display_statistics_all_or_none (shelf [marked true; marked true]) 0%nat);
      [discriminate | reflexivity].
  - apply (display_statistics_all_or_none (shelf [marked false]) 0%nat);
      [discriminate | reflexivity].
Defined.

Lemma display_statistics_same_proportion_witness :
  snd (eval (display_statistics 0%nat)
            (shelf [marked true; marked false; marked false; marked false]))
  = snd (eval (display_statistics 0%nat)
              (shelf (repeat (marked true) 2 ++ repeat (marked false) 6))).
Proof.
  apply (display_statistics_same_proportion
           (shelf [marked true; marked false; marked false; marked false])
           (shelf (repeat (marked true) 2 ++ repeat (marked false) 6))
           0%nat 0%nat); [discriminate | discriminate | reflexivity].
Defined.

Lemma display_statistics_monotone_witness :
  exists p1 p2 : float64,
    snd (eval (display_statistics 0%nat)
              (shelf [marked true; marked false; marked false; marked false]))
    = PyFloat p1 /\
    snd (eval (display_statistics 0%nat)
              (shelf [marked true; marked false; marked false]))
    = PyFloat p2 /\
    (p1 <= p2)%Q.
Proof.
  apply (display_statistics_monotone
           (shelf [marked true; marked false; marked false; marked false])
           (shelf [marked true; marked false; marked false])
           0%nat 0%nat); [discriminate | discriminate | cbn; lia].
Defined.

Lemma load_library_blank_file_witness :
  forallb is_ws (lit "   ") = true /\
  load_library (with_file "   ")
  = (Returned (PList []),
     mkWorld (fun _ => []) [Error decode_error_text] (Some (lit "   "))).
Proof.
  split; [reflexivity|].
  apply (load_library_blank_file (with_file "   ") (lit "   "));
    reflexivity.
Defined.

Lemma save_library_injective_witness :
  forallb book_ok [unicode_book] = true /\
  heap (shelf [unicode_book]) 0%nat = heap (synced [unicode_book]) 0%nat.
Proof.
  split; [reflexivity|].
  apply (save_library_injective (fun x => x) (shelf [unicode_book])
           (synced [unicode_book]) 0%nat 0%nat); reflexivity.
Defined.




Lemma session_keeps_named_witness :
  forallb named
    (heap (exec (session lower_ascii (fun x => x) 0%nat sample_session) (shelf []))
          0%nat) = true.
Proof.
  apply (session_keeps_named lower_ascii (fun x => x) (shelf []) 0%nat
           sample_session).
  reflexivity.
Defined.

Lemma session_then_load_witness :
  let w' := exec (session lower_ascii (fun x => x) 0%nat sample_session)
                 (synced []) in
  forallb submission_ok sample_session = true /\
  load_library w' = (Returned (library_value (heap w' 0%nat)), w').
Proof.
  cbv zeta. split; [reflexivity|].
  apply (session_then_load lower_ascii (fun x => x) (synced []) 0%nat
           sample_session); reflexivity.
Defined.

Lemma load_library_ignores_padding_witness :
  load_library padded_file
  = (Returned (library_value [unicode_book]), padded_file).
Proof.
  apply (load_library_ignores_padding (fun x => x) 2%nat padded_file
           [unicode_book] [10] [32; 10]); reflexivity.
Defined.

Lemma add_then_statistics_witness :
  exists p p1 : float64,
    snd (eval (display_statistics 0%nat) (shelf [marked true; marked false]))
    = PyFloat p /\
    snd (eval (display_statistics 0%nat)
              (exec (add_book 0%nat (lit "Emma") (lit "Austen") 1815 [] true)
                    (shelf [marked true; marked false])))
    = PyFloat p1 /\
    (p <= p1)%Q.
Proof.
  apply (add_then_statistics (shelf [marked true; marked false]) 0%nat
           (lit "Emma") (lit "Austen") 1815 [] true).
  discriminate.
Defined.
